(** * WhatsApp AI agent: admission pipeline, rate limiter, command router,
      conversation store and orchestrator

    A shallow embedding of [src/message_handler.py], [src/ai_processor.py],
    [src/whatsapp_client.py] (the send path) and [src/bot.py].

    Conventions of the embedding.
    - Python [str] is [string]; the text primitives ([strip], [lower],
      the character class [\s]) are modelled on ASCII, a byte above 127 is
      carried unchanged and is never white space.
    - A [datetime] is a [Z], the number of microseconds on the time line;
      [timedelta(hours=1)] is [hour]; the text [isoformat()] makes of a
      [datetime] is represented by that [Z].
    - The three objects of the bot ([MessageHandler], [AIProcessor],
      [WhatsAppClient]), the logging system and the outside world (clock,
      chat-completion API) live in one [world]; a method is a function
      [world -> result A * world], written in the monad [M].
    - An exception is a value [Raise e]; [try_except] is the [try: ...
      except Exception as e: ...] statement. *)

From Stdlib Require Import ZArith String Ascii List Bool Lia.
From stdpp Require Import gmap strings list.

Open Scope string_scope.
Open Scope list_scope.
Open Scope Z_scope.

(* ===================================================================== *)
(** * Python text primitives                                              *)
(* ===================================================================== *)

Module PyText.

(** [str.isspace] on one character, also the class [\s] of [re]:
    TAB, LF, VT, FF, CR, FS, GS, RS, US and SPACE. *)
Definition is_space (c : ascii) : bool :=
  let n := nat_of_ascii c in
  ((9 <=? n)%nat && (n <=? 13)%nat) || ((28 <=? n)%nat && (n <=? 32)%nat).

Definition lower_char (c : ascii) : ascii :=
  let n := nat_of_ascii c in
  if ((65 <=? n)%nat && (n <=? 90)%nat) then ascii_of_nat (n + 32) else c.

(** [s.lower()] on ASCII text: the letters A to Z are folded.  Python
    also folds the letters outside ASCII, which this model carries
    unchanged; what is proved of [lower] is proved of texts and bot
    names in ASCII. *)
Fixpoint lower (s : string) : string :=
  match s with
  | EmptyString => EmptyString
  | String c r => String (lower_char c) (lower r)
  end.

Fixpoint lstrip (s : string) : string :=
  match s with
  | EmptyString => EmptyString
  | String c r => if is_space c then lstrip r else s
  end.

Fixpoint rstrip (s : string) : string :=
  match s with
  | EmptyString => EmptyString
  | String c r =>
      match rstrip r with
      | EmptyString => if is_space c then EmptyString else String c EmptyString
      | r' => String c r'
      end
  end.

(** [s.strip()] *)
Definition strip (s : string) : string := rstrip (lstrip s).

(** [s[:n]] *)
Definition take_str (n : nat) (s : string) : string := substring 0 n s.

(** [s[n:]] *)
Fixpoint drop_str (n : nat) (s : string) : string :=
  match n, s with
  | O, _ => s
  | S _, EmptyString => EmptyString
  | S k, String _ r => drop_str k r
  end.

(** [p] is a prefix of [s]. *)
Fixpoint starts_with (p s : string) : bool :=
  match p, s with
  | EmptyString, _ => true
  | String _ _, EmptyString => false
  | String a p', String b s' => Ascii.eqb a b && starts_with p' s'
  end.

(** [p] (in lower case) is a prefix of [s] up to the case of [s]: one
    match attempt of a literal pattern under [re.IGNORECASE]. *)
Fixpoint starts_with_ci (p s : string) : bool :=
  match p, s with
  | EmptyString, _ => true
  | String _ _, EmptyString => false
  | String a p', String b s' => Ascii.eqb a (lower_char b) && starts_with_ci p' s'
  end.

(** [re.search(p, s) is not None] for a pattern [p] without
    metacharacters: [p] occurs in [s]. *)
Fixpoint contains (p s : string) : bool :=
  starts_with p s ||
  match s with
  | EmptyString => false
  | String _ r => contains p r
  end.

(** [re.sub(p, '', s, flags=re.IGNORECASE)] for a non-empty literal [p] in
    lower case: the scan goes left to right, a match at the current
    position is dropped ([skip] counts the characters of it still to
    drop), any other character is kept. *)
Fixpoint remove_ci_from (p : string) (skip : nat) (s : string) : string :=
  match s with
  | EmptyString => EmptyString
  | String c r =>
      match skip with
      | S k => remove_ci_from p k r
      | O =>
          if starts_with_ci p s
          then remove_ci_from p (String.length p - 1) r
          else String c (remove_ci_from p 0 r)
      end
  end.

Definition remove_ci (p s : string) : string := remove_ci_from p 0 s.

(** [re.sub(r'\s+', ' ', s)]: every maximal run of white space becomes one
    blank.  [in_run] tells that the previous character was white space. *)
Fixpoint collapse_from (in_run : bool) (s : string) : string :=
  match s with
  | EmptyString => EmptyString
  | String c r =>
      if is_space c
      then (if in_run then collapse_from true r
            else String " "%char (collapse_from true r))
      else String c (collapse_from false r)
  end.

Definition collapse_whitespace (s : string) : string := collapse_from false s.

Definition newline : string := String (ascii_of_nat 10) EmptyString.

(** [re.match(r'^(?:a1|a2|...)$', s)]: [^] is the start of the text, [$]
    is its end or the place before a line feed that ends it. *)
Definition match_alternatives (alts : list string) (s : string) : bool :=
  existsb (fun a => String.eqb s a || String.eqb s (a +:+ newline)) alts.

End PyText.

Import PyText.

(* ===================================================================== *)
(** * Exceptions, objects and the world                                   *)
(* ===================================================================== *)

(** The exceptions the modelled code can meet; all derive from
    [Exception]. *)
Inductive exn : Type :=
  | AttributeError (msg : string)
  | TypeError (msg : string)
  | KeyError (msg : string)
  | ReError (msg : string)       (* re.error: the pattern does not compile *)
  | APIError (msg : string).     (* anything the completion API raises *)

(** [str(e)] *)
Definition str_of_exn (e : exn) : string :=
  match e with
  | AttributeError m | TypeError m | KeyError m | ReError m | APIError m => m
  end.

Inductive result (A : Type) : Type :=
  | Ok (a : A)
  | Raise (e : exn).
Arguments Ok {A} a.
Arguments Raise {A} e.

(** A value found under the key ['body'] of an inbound message. *)
Inductive py_body : Type :=
  | Absent                 (* the key is missing: [.get('body', '')] is [''] *)
  | PyNone                 (* the key holds [None] *)
  | PyStr (s : string).

(** The inbound record [{from, body, isGroupMsg, type}] the transport
    delivers.  [None] in an optional field is a missing key, for which
    [.get] supplies its default. *)
Record message : Type := {
  msg_from : string;
  msg_body : py_body;
  msg_isGroupMsg : option bool;
  msg_type : option string
}.

(** [response_data['context']] *)
Inductive context_map : Type :=
  | EmptyContext
  | AdmitContext (is_group : bool) (sender original_message cleaned_message : string)
                 (timestamp : Z).

(** The dictionary [process_message] returns.  A field of type [option]
    is a key that some results carry and others do not. *)
Record response_data : Type := {
  content : string;
  sender : option string;
  is_group : option bool;
  message_type : option string;
  should_respond : bool;
  response_type : option string;
  context : option context_map;
  timestamp : option Z;
  clear_history : option bool;
  action : option string;
  error : option string
}.

(** What [_handle_command] returns. *)
Record command_result : Type := {
  cr_content : string;
  cr_response_type : string;
  cr_clear_history : option bool;
  cr_action : option string
}.

(** [response_data.update(command_result)] *)
Definition update (r : response_data) (c : command_result) : response_data :=
  {| content := cr_content c;
     sender := sender r;
     is_group := is_group r;
     message_type := message_type r;
     should_respond := should_respond r;
     response_type := Some (cr_response_type c);
     context := context r;
     timestamp := timestamp r;
     clear_history := match cr_clear_history c with Some b => Some b | None => clear_history r end;
     action := match cr_action c with Some a => Some a | None => action r end;
     error := error r |}.

Definition set_should_respond (b : bool) (r : response_data) : response_data :=
  {| content := content r; sender := sender r; is_group := is_group r;
     message_type := message_type r; should_respond := b;
     response_type := response_type r; context := context r;
     timestamp := timestamp r; clear_history := clear_history r;
     action := action r; error := error r |}.

Definition set_content (s : string) (r : response_data) : response_data :=
  {| content := s; sender := sender r; is_group := is_group r;
     message_type := message_type r; should_respond := should_respond r;
     response_type := response_type r; context := context r;
     timestamp := timestamp r; clear_history := clear_history r;
     action := action r; error := error r |}.

Definition set_context (c : context_map) (r : response_data) : response_data :=
  {| content := content r; sender := sender r; is_group := is_group r;
     message_type := message_type r; should_respond := should_respond r;
     response_type := response_type r; context := Some c;
     timestamp := timestamp r; clear_history := clear_history r;
     action := action r; error := error r |}.

(** The attributes of a [MessageHandler]. *)
Record message_handler : Type := {
  allowed_contacts : gset string;
  blocked_contacts : gset string;
  respond_to_groups : bool;
  require_mention : bool;
  rate_limit_enabled : bool;
  max_messages_per_hour : Z;
  message_timestamps : gmap string (list Z);
  bot_name : string                 (* config.get('bot_name', 'AI Assistant') *)
}.

(** One entry of a conversation. *)
Record turn : Type := {
  role : string;
  turn_content : string;
  turn_timestamp : Z
}.

(** The attributes of an [AIProcessor]; [provider] is
    [config.get('provider')], [None] when the key is missing. *)
Record ai_processor : Type := {
  provider : option string;
  system_prompt : string;
  conversation_history : gmap string (list turn);
  max_history_length : Z
}.

(** The attributes of a [WhatsAppClient] that the send path reads. *)
Record whatsapp_client : Type := {
  is_connected_flag : bool;
  client_type : string
}.

Inductive level : Type := INFO | WARNING | ERROR.

Record world : Type := {
  handler : message_handler;
  processor : ai_processor;
  client : whatsapp_client;
  send_error_notifications : bool;     (* config['messaging'] of the bot *)
  outbox : list (string * string);     (* (to, text) handed to the network *)
  logs : list (level * string);
  events : nat                         (* clock readings and API calls so far *)
}.

Definition with_handler (h : message_handler) (w : world) : world :=
  {| handler := h; processor := processor w; client := client w;
     send_error_notifications := send_error_notifications w;
     outbox := outbox w; logs := logs w; events := events w |}.

Definition with_processor (p : ai_processor) (w : world) : world :=
  {| handler := handler w; processor := p; client := client w;
     send_error_notifications := send_error_notifications w;
     outbox := outbox w; logs := logs w; events := events w |}.

Definition with_outbox (o : list (string * string)) (w : world) : world :=
  {| handler := handler w; processor := processor w; client := client w;
     send_error_notifications := send_error_notifications w;
     outbox := o; logs := logs w; events := events w |}.

Definition with_logs (l : list (level * string)) (w : world) : world :=
  {| handler := handler w; processor := processor w; client := client w;
     send_error_notifications := send_error_notifications w;
     outbox := outbox w; logs := l; events := events w |}.

Definition with_events (n : nat) (w : world) : world :=
  {| handler := handler w; processor := processor w; client := client w;
     send_error_notifications := send_error_notifications w;
     outbox := outbox w; logs := logs w; events := n |}.

Definition with_timestamps (m : gmap string (list Z)) (h : message_handler)
  : message_handler :=
  {| allowed_contacts := allowed_contacts h;
     blocked_contacts := blocked_contacts h;
     respond_to_groups := respond_to_groups h;
     require_mention := require_mention h;
     rate_limit_enabled := rate_limit_enabled h;
     max_messages_per_hour := max_messages_per_hour h;
     message_timestamps := m;
     bot_name := bot_name h |}.

Definition with_history (m : gmap string (list turn)) (p : ai_processor)
  : ai_processor :=
  {| provider := provider p; system_prompt := system_prompt p;
     conversation_history := m; max_history_length := max_history_length p |}.

(* ===================================================================== *)
(** * The monad of methods                                                *)
(* ===================================================================== *)

Definition M (A : Type) : Type := world -> result A * world.

Definition ret {A} (a : A) : M A := fun w => (Ok a, w).

Definition raise {A} (e : exn) : M A := fun w => (Raise e, w).

Definition bind {A B} (c : M A) (k : A -> M B) : M B :=
  fun w =>
    match c w with
    | (Ok a, w') => k a w'
    | (Raise e, w') => (Raise e, w')
    end.

Notation "x <- c ;; k" := (bind c (fun x => k))
  (at level 100, c at next level, right associativity).
Notation "c ;;; k" := (bind c (fun _ => k))
  (at level 100, right associativity).

(** [try: body / except Exception as e: handler e] *)
Definition try_except {A} (body : M A) (on_exn : exn -> M A) : M A :=
  fun w =>
    match body w with
    | (Ok a, w') => (Ok a, w')
    | (Raise e, w') => on_exn e w'
    end.

(** A computation without effect that may raise. *)
Definition lift {A} (r : result A) : M A := fun w => (r, w).

Definition get : M world := fun w => (Ok w, w).

Definition modify (f : world -> world) : M unit := fun w => (Ok tt, f w).

(** [self.logger.info(...)] and the like. *)
Definition log (l : level) (text : string) : M unit :=
  modify (fun w => with_logs (logs w ++ [(l, text)]) w).

(** One hour and one minute, in microseconds. *)
Definition hour : Z := 3600000000.
Definition minute : Z := 60000000.

(* ===================================================================== *)
(** * The program                                                         *)
(* ===================================================================== *)

(** A regular expression of [self.mention_patterns]. *)
Inductive pattern : Type :=
  | Literal (p : string)        (* '@bot', 'hey bot', 'hi bot' *)
  | BotPrefix                   (* '^bot[,:\s]' *)
  | Configured (p : string).    (* the bot name of the configuration *)

(** [self.command_patterns], in the order of the dictionary; a pattern
    [^(?:a|b|c)$] is the list of its alternatives. *)
Definition command_patterns : list (string * list string) :=
  [ ("help",   ["help"; "/help"; "?help"]);
    ("status", ["status"; "/status"]);
    ("clear",  ["clear"; "/clear"; "reset"]);
    ("stop",   ["stop"; "/stop"; "pause"]);
    ("start",  ["start"; "/start"; "resume"]) ].

Definition rate_limit_notice : string :=
  "You're sending messages too quickly. Please wait a moment before sending another message.".

Definition _get_help_message : string :=
  "ðŸ¤– *AI Assistant Help*\n\n" +:+
  "*Available Commands:*\n" +:+
  "â€¢ `help` - Show this help message\n" +:+
  "â€¢ `status` - Check bot status\n" +:+
  "â€¢ `clear` - Clear conversation history\n" +:+
  "â€¢ `stop` - Stop responding to your messages\n" +:+
  "â€¢ `start` - Resume responding\n\n" +:+
  "*Just send me any message and I'll try to help!*".

(** ** The configuration-supplied pattern when it is plain text

    A bot name without metacharacters compiles to a pattern that matches
    itself: the search is a substring test and the substitution removes
    the occurrences, whatever their case. *)
Definition literal_search (p s : string) : result bool := Ok (contains p s).

Definition literal_sub (p s : string) : result string :=
  Ok (if String.eqb p "" then s else remove_ci p s).

(* ===================================================================== *)
(** * Sample configurations, worlds and messages                          *)
(* ===================================================================== *)

(** The configuration of [_validate_config]: no contact list, no group
    responses, mention required, limiter on with 30 messages an hour. *)
Definition default_handler : message_handler :=
  {| allowed_contacts := ∅; blocked_contacts := ∅;
     respond_to_groups := false; require_mention := true;
     rate_limit_enabled := true; max_messages_per_hour := 30;
     message_timestamps := ∅; bot_name := "AI Assistant" |}.

Definition default_processor : ai_processor :=
  {| provider := Some "openai";
     system_prompt :=
       "You are a helpful AI assistant responding to WhatsApp messages. "
       +:+ "Be concise, friendly, and helpful in your responses.";
     conversation_history := ∅; max_history_length := 10 |}.

Definition web_client : whatsapp_client :=
  {| is_connected_flag := true; client_type := "web" |}.

(** A bot that has just started. *)
Definition fresh_world (h : message_handler) (p : ai_processor) : world :=
  {| handler := h; processor := p; client := web_client;
     send_error_notifications := false; outbox := []; logs := []; events := 0 |}.

Definition default_world : world := fresh_world default_handler default_processor.

(** The default processor with another cap on the history. *)
Definition processor_with_cap (cap : Z) : ai_processor :=
  {| provider := provider default_processor;
     system_prompt := system_prompt default_processor;
     conversation_history := ∅; max_history_length := cap |}.

(** The default handler that answers in groups. *)
Definition group_handler : message_handler :=
  {| allowed_contacts := ∅; blocked_contacts := ∅;
     respond_to_groups := true; require_mention := true;
     rate_limit_enabled := true; max_messages_per_hour := 30;
     message_timestamps := ∅; bot_name := "AI Assistant" |}.

(** The default handler with ["A"] on both contact lists. *)
Definition both_lists_handler : message_handler :=
  {| allowed_contacts := {["A"]}; blocked_contacts := {["A"]};
     respond_to_groups := false; require_mention := true;
     rate_limit_enabled := true; max_messages_per_hour := 30;
     message_timestamps := ∅; bot_name := "AI Assistant" |}.

(** A clock that advances by one microsecond at every event. *)
Definition tick_clock (n : nat) : Z := Z.of_nat n.

(** A completion API that always answers, one that is always down, and
    one that goes down at the event [limit]. *)
Definition stub_backend (n : nat) (messages : list (string * string)) : result string :=
  Ok "stub reply".

Definition down_backend (n : nat) (messages : list (string * string)) : result string :=
  Raise (APIError "Connection refused").

Definition backend_down_from (limit : nat) (n : nat) (messages : list (string * string))
  : result string :=
  if (n <? limit)%nat then Ok "stub reply" else Raise (APIError "Connection refused").

(** A direct text message. *)
Definition direct (from text : string) : message :=
  {| msg_from := from; msg_body := PyStr text;
     msg_isGroupMsg := Some false; msg_type := Some "text" |}.

(** A text message in a group. *)
Definition in_group (from text : string) : message :=
  {| msg_from := from; msg_body := PyStr text;
     msg_isGroupMsg := Some true; msg_type := Some "text" |}.

(** A media message: no text, the body is [None]. *)
Definition media (from : string) : message :=
  {| msg_from := from; msg_body := PyNone;
     msg_isGroupMsg := Some false; msg_type := Some "image" |}.

(** [n] distinct plain messages of ["A"]: "message A", "message B", ... *)
Definition burst (n : nat) : list message :=
  map (fun i => direct "A" ("message " +:+ String (ascii_of_nat (64 + i)) EmptyString))
      (seq 1 n).

(** A clock that stands five microseconds past the first hour, and a
    handler that has the stamps 5, 6 and 7 for ["A"]: the stamp 5 is
    exactly one hour old. *)
Definition boundary_clock (n : nat) : Z := hour + 5.

Definition boundary_world : world :=
  fresh_world (with_timestamps {["A" := [5; 6; 7]]} default_handler) default_processor.

(** The default handler with another hourly cap. *)
Definition handler_with_cap (cap : Z) : message_handler :=
  {| allowed_contacts := ∅; blocked_contacts := ∅;
     respond_to_groups := false; require_mention := true;
     rate_limit_enabled := true; max_messages_per_hour := cap;
     message_timestamps := ∅; bot_name := "AI Assistant" |}.

(** A clock that stands ten microseconds past the second hour. *)
Definition late_clock (n : nat) : Z := 2 * hour + 10.

(** An API that answers only the prompts that start with a system message
    and hold at most [cap] further messages. *)
Definition strict_backend (cap : nat) (n : nat) (messages : list (string * string))
  : result string :=
  match messages with
  | first :: turns =>
      if String.eqb (fst first) "system" && (length turns <=? cap)%nat
      then Ok "stub reply"
      else Raise (APIError "Invalid prompt")
  | [] => Raise (APIError "Invalid prompt")
  end.

(** The default processor under the provider [p]. *)
Definition processor_of_provider (p : string) : ai_processor :=
  {| provider := Some p;
     system_prompt := system_prompt default_processor;
     conversation_history := ∅; max_history_length := 10 |}.

(** The default bot with error notifications switched on. *)
Definition notifying_world : world :=
  {| handler := default_handler; processor := default_processor; client := web_client;
     send_error_notifications := true; outbox := []; logs := []; events := 0 |}.

Section Program.

Set Default Proof Using "Type".

(** The outside world.  [clock n] is what [datetime.now()] returns at the
    [n]-th event; [acreate n messages] is the text of the first choice of
    [openai.ChatCompletion.acreate] called at the [n]-th event, or what it
    raises; [re_search_config p s] is [re.search(p, s) is not None] and
    [re_sub_config p s] is [re.sub(p, '', s, flags=re.IGNORECASE)] for
    the pattern [p] that comes from the configuration, which [re] may
    refuse to compile. *)
Variable clock : nat -> Z.
Variable acreate : nat -> list (string * string) -> result string.
Variable re_search_config : string -> string -> result bool.
Variable re_sub_config : string -> string -> result string.

(** [datetime.now()] *)
Definition datetime_now : M Z :=
  fun w => (Ok (clock (events w)), with_events (S (events w)) w).

(** ** MessageHandler *)

Definition mention_patterns (self : message_handler) : list pattern :=
  [ Literal "@bot"; Literal "hey bot"; Literal "hi bot"; BotPrefix;
    Configured (lower (bot_name self)) ].

(** The class [[,:\s]]. *)
Definition in_bot_class (c : ascii) : bool :=
  Ascii.eqb c ","%char || Ascii.eqb c ":"%char || is_space c.

(** [^bot[,:\s]] matches at the start of [s]; [ci] is [re.IGNORECASE]. *)
Definition bot_prefix_matches (ci : bool) (s : string) : bool :=
  (if ci then starts_with_ci "bot" s else starts_with "bot" s) &&
  match drop_str 3 s with
  | String c _ => in_bot_class c
  | EmptyString => false
  end.

(** [re.search(pattern, s)] as a truth value. *)
Definition re_search (p : pattern) (s : string) : result bool :=
  match p with
  | Literal l => Ok (contains l s)
  | BotPrefix => Ok (bot_prefix_matches false s)
  | Configured c => re_search_config c s
  end.

(** [re.sub(pattern, '', s, flags=re.IGNORECASE)] *)
Definition re_sub (p : pattern) (s : string) : result string :=
  match p with
  | Literal l => Ok (remove_ci l s)
  | BotPrefix => Ok (if bot_prefix_matches true s then drop_str 4 s else s)
  | Configured c => re_sub_config c s
  end.

Definition _is_blocked_contact (self : message_handler) (sender : string) : bool :=
  bool_decide (sender ∈ blocked_contacts self).

Definition _is_allowed_contact (self : message_handler) (sender : string) : bool :=
  bool_decide (allowed_contacts self = ∅) || bool_decide (sender ∈ allowed_contacts self).

(** [any(re.search(pattern, s) for pattern in ps)]: the generator stops at
    the first match, a later pattern is not even compiled. *)
Fixpoint any_search (ps : list pattern) (s : string) : result bool :=
  match ps with
  | [] => Ok false
  | p :: rest =>
      match re_search p s with
      | Raise e => Raise e
      | Ok true => Ok true
      | Ok false => any_search rest s
      end
  end.

Definition _is_bot_mentioned (self : message_handler) (content : string) : result bool :=
  let content_lower := lower content in
  any_search (mention_patterns self) content_lower.

(** The body of [for pattern in self.mention_patterns: cleaned =
    re.sub(pattern, '', cleaned, flags=re.IGNORECASE).strip()]. *)
Fixpoint strip_mentions (ps : list pattern) (cleaned : string) : result string :=
  match ps with
  | [] => Ok cleaned
  | p :: rest =>
      match re_sub p cleaned with
      | Raise e => Raise e
      | Ok c => strip_mentions rest (strip c)
      end
  end.

Definition _clean_message_content (self : message_handler) (content : string)
    (is_group : bool) : result string :=
  let cleaned := strip content in
  match (if is_group then strip_mentions (mention_patterns self) cleaned
         else Ok cleaned) with
  | Raise e => Raise e
  | Ok cleaned => Ok (collapse_whitespace cleaned)
  end.

(** [self.message_timestamps[sender]] *)
Definition get_timestamps (sender : string) : M (list Z) :=
  fun w =>
    match message_timestamps (handler w) !! sender with
    | Some l => (Ok l, w)
    | None => (Raise (KeyError sender), w)
    end.

(** [self.message_timestamps[sender] = l] *)
Definition set_timestamps (sender : string) (l : list Z) : M unit :=
  modify (fun w =>
    with_handler (with_timestamps (<[sender := l]> (message_timestamps (handler w)))
                                  (handler w)) w).

Definition _check_rate_limit (sender : string) : M bool :=
  w <- get ;;
  if negb (rate_limit_enabled (handler w)) then ret true else
  now <- datetime_now ;;
  let hour_ago := now - hour in
  (* Initialize sender's message history *)
  (if bool_decide (message_timestamps (handler w) !! sender = None)
   then set_timestamps sender []
   else ret tt) ;;;
  (* Remove old timestamps *)
  old <- get_timestamps sender ;;
  set_timestamps sender (filter (fun timestamp => hour_ago < timestamp) old) ;;;
  (* Check if rate limit is exceeded *)
  kept <- get_timestamps sender ;;
  if max_messages_per_hour (handler w) <=? Z.of_nat (length kept) then ret false else
  (* Add current timestamp *)
  set_timestamps sender (kept ++ [now]) ;;;
  ret true.

Definition _handle_command (command sender : string) : command_result :=
  if String.eqb command "help" then
    {| cr_content := _get_help_message; cr_response_type := "text";
       cr_clear_history := None; cr_action := None |}
  else if String.eqb command "status" then
    {| cr_content := "I'm online and ready to help! ðŸ¤–"; cr_response_type := "text";
       cr_clear_history := None; cr_action := None |}
  else if String.eqb command "clear" then
    {| cr_content := "Conversation history cleared! ðŸ§¹"; cr_response_type := "text";
       cr_clear_history := Some true; cr_action := None |}
  else if String.eqb command "stop" then
    {| cr_content := "I'll stop responding to your messages. Send 'start' to resume.";
       cr_response_type := "text";
       cr_clear_history := None; cr_action := Some "pause" |}
  else if String.eqb command "start" then
    {| cr_content := "I'm back! How can I help you?"; cr_response_type := "text";
       cr_clear_history := None; cr_action := Some "resume" |}
  else
    {| cr_content := "Unknown command."; cr_response_type := "text";
       cr_clear_history := None; cr_action := None |}.

(** The first command of [patterns] whose pattern matches [s]. *)
Fixpoint first_command (patterns : list (string * list string)) (s : string)
  : option string :=
  match patterns with
  | [] => None
  | (command, alts) :: rest =>
      if match_alternatives alts s then Some command else first_command rest s
  end.

Definition _process_command (content sender : string) : M (option command_result) :=
  let content_lower := strip (lower content) in
  match first_command command_patterns content_lower with
  | Some command =>
      log INFO ("Processing command: " +:+ command +:+ " from " +:+ sender) ;;;
      ret (Some (_handle_command command sender))
  | None => ret None
  end.

(** [message.get('body', '').strip()] *)
Definition body_strip (b : py_body) : result string :=
  match b with
  | Absent => Ok (strip "")
  | PyStr s => Ok (strip s)
  | PyNone => Raise (AttributeError "'NoneType' object has no attribute 'strip'")
  end.

(** Lines 96 to 126 of [process_message]: what follows the filters. *)
Definition rate_limit_and_respond (self : message_handler) (sender content : string)
    (is_group : bool) (data : response_data) : M response_data :=
  (* Check rate limiting *)
  within <- _check_rate_limit sender ;;
  if negb within then
    log WARNING ("Rate limit exceeded for " +:+ sender) ;;;
    ret (set_content rate_limit_notice (set_should_respond true data))
  else
  (* Process commands *)
  command_result <- _process_command content sender ;;
  match command_result with
  | Some c => ret (set_should_respond true (update data c))
  | None =>
      (* Clean message content *)
      cleaned_content <- lift (_clean_message_content self content is_group) ;;
      (* Add context information *)
      stamped <- datetime_now ;;
      ret (set_should_respond true
             (set_context (AdmitContext is_group sender content cleaned_content stamped)
                (set_content cleaned_content data)))
  end.

(** The statements between [try:] and [except] of [process_message]. *)
Definition process_message_body (message : message) : M response_data :=
  let sender := msg_from message in
  content <- lift (body_strip (msg_body message)) ;;
  let is_group := default false (msg_isGroupMsg message) in
  let message_type := default "text" (msg_type message) in
  log INFO ("Processing message from " +:+ sender +:+ ": " +:+ take_str 50 content +:+ "...") ;;;
  (* Initialize response data *)
  created <- datetime_now ;;
  let response_data :=
    {| content := content; sender := Some sender; is_group := Some is_group;
       message_type := Some message_type; should_respond := false;
       response_type := Some "text"; context := Some EmptyContext;
       timestamp := Some created; clear_history := None; action := None;
       error := None |} in
  (* Skip non-text messages for now *)
  if negb (String.eqb message_type "text") then
    log INFO ("Skipping non-text message type: " +:+ message_type) ;;;
    ret response_data
  else
  w <- get ;;
  let self := handler w in
  (* Check if sender is blocked *)
  if _is_blocked_contact self sender then
    log INFO ("Message from blocked contact: " +:+ sender) ;;;
    ret response_data
  else
  (* Check if sender is allowed (if whitelist is enabled) *)
  if negb (bool_decide (allowed_contacts self = ∅)) && negb (_is_allowed_contact self sender) then
    log INFO ("Message from non-allowed contact: " +:+ sender) ;;;
    ret response_data
  else
  (* Handle group messages *)
  if is_group then
    if negb (respond_to_groups self) then
      log INFO "Group messages disabled" ;;;
      ret response_data
    else if require_mention self then
      mentioned <- lift (_is_bot_mentioned self content) ;;
      if negb mentioned then
        log INFO "Bot not mentioned in group message" ;;;
        ret response_data
      else rate_limit_and_respond self sender content is_group response_data
    else rate_limit_and_respond self sender content is_group response_data
  else rate_limit_and_respond self sender content is_group response_data.

Definition process_message (message : message) : M response_data :=
  try_except (process_message_body message)
    (fun e =>
       log ERROR ("Error processing message: " +:+ str_of_exn e) ;;;
       ret {| content := ""; sender := None; is_group := None;
              message_type := None; should_respond := false;
              response_type := None; context := None; timestamp := None;
              clear_history := None; action := None;
              error := Some (str_of_exn e) |}).

Definition add_blocked_contact (contact : string) : M unit :=
  modify (fun w =>
    let h := handler w in
    with_handler
      {| allowed_contacts := allowed_contacts h;
         blocked_contacts := {[contact]} ∪ blocked_contacts h;
         respond_to_groups := respond_to_groups h;
         require_mention := require_mention h;
         rate_limit_enabled := rate_limit_enabled h;
         max_messages_per_hour := max_messages_per_hour h;
         message_timestamps := message_timestamps h;
         bot_name := bot_name h |} w) ;;;
  log INFO ("Added " +:+ contact +:+ " to blocked contacts").

Definition remove_blocked_contact (contact : string) : M unit :=
  modify (fun w =>
    let h := handler w in
    with_handler
      {| allowed_contacts := allowed_contacts h;
         blocked_contacts := blocked_contacts h ∖ {[contact]};
         respond_to_groups := respond_to_groups h;
         require_mention := require_mention h;
         rate_limit_enabled := rate_limit_enabled h;
         max_messages_per_hour := max_messages_per_hour h;
         message_timestamps := message_timestamps h;
         bot_name := bot_name h |} w) ;;;
  log INFO ("Removed " +:+ contact +:+ " from blocked contacts").

(** ** AIProcessor *)

(** A Python variable that holds a conversation holds a reference to a
    list object, and [list.append] changes that object for every holder.
    [Stored sender] is the object that [self.conversation_history] holds
    under [sender]: appending through it changes the stored history.
    [Fresh l] is a list that no dictionary entry refers to (the default
    [[]] of [.get], or the result of a slice). *)
Inductive conversation_ref : Type :=
  | Stored (sender : string)
  | Fresh (l : list turn).

(** [l[i:]] *)
Definition slice_from {A} (i : Z) (l : list A) : list A :=
  if i <? 0
  then drop (Z.to_nat (Z.max 0 (Z.of_nat (length l) + i))) l
  else drop (Z.to_nat i) l.

(** The elements of the list a reference designates. *)
Definition read_ref (c : conversation_ref) : M (list turn) :=
  match c with
  | Fresh l => ret l
  | Stored s =>
      fun w => (Ok (default [] (conversation_history (processor w) !! s)), w)
  end.

(** [conversation.append(t)] *)
Definition append_ref (c : conversation_ref) (t : turn) : M conversation_ref :=
  match c with
  | Fresh l => ret (Fresh (l ++ [t]))
  | Stored s =>
      modify (fun w =>
        with_processor
          (with_history (alter (fun l => l ++ [t]) s (conversation_history (processor w)))
                        (processor w)) w) ;;;
      ret (Stored s)
  end.

(** [self.conversation_history.get(sender, [])]: the stored list itself
    when there is one, not a copy of it. *)
Definition _get_conversation_history (sender : string) : M conversation_ref :=
  w <- get ;;
  ret (match conversation_history (processor w) !! sender with
       | Some _ => Stored sender
       | None => Fresh []
       end).

Definition _update_conversation_history (sender : string) (conversation : conversation_ref)
  : M unit :=
  w <- get ;;
  l <- read_ref conversation ;;
  let cap := max_history_length (processor w) in
  (* Keep only the most recent messages *)
  let conversation :=
    if cap <? Z.of_nat (length l) then Fresh (slice_from (- cap) l) else conversation in
  kept <- read_ref conversation ;;
  modify (fun w =>
    with_processor
      (with_history (<[sender := kept]> (conversation_history (processor w)))
                    (processor w)) w).

Definition _generate_with_openai (conversation : conversation_ref)
    (context : option context_map) : M (option string) :=
  try_except
    (w <- get ;;
     l <- read_ref conversation ;;
     (* Prepare messages for OpenAI *)
     let messages :=
       ("system", system_prompt (processor w)) ::
       map (fun msg => (role msg, turn_content msg))
           (slice_from (- max_history_length (processor w)) l) in
     (* Make API call *)
     modify (fun w => with_events (S (events w)) w) ;;;
     text <- lift (acreate (events w) messages) ;;
     ret (Some (strip text)))
    (fun e =>
       log ERROR ("OpenAI API error: " +:+ str_of_exn e) ;;;
       ret None).

Definition _generate_with_anthropic (conversation : conversation_ref)
    (context : option context_map) : M (option string) :=
  log WARNING "Anthropic provider not yet implemented" ;;;
  ret (Some "Sorry, I'm not available right now. Please try again later.").

Definition _generate_with_local_model (conversation : conversation_ref)
    (context : option context_map) : M (option string) :=
  log WARNING "Local model provider not yet implemented" ;;;
  ret (Some "Hello! I'm running on a local model. How can I help you?").

Definition _generate_with_provider (conversation : conversation_ref)
    (context : option context_map) : M (option string) :=
  w <- get ;;
  let provider := default "openai" (provider (processor w)) in
  if String.eqb provider "openai" then _generate_with_openai conversation context
  else if String.eqb provider "anthropic" then _generate_with_anthropic conversation context
  else if String.eqb provider "local" then _generate_with_local_model conversation context
  else
    log ERROR ("Unknown AI provider: " +:+ provider) ;;;
    ret None.

(** The truth value of an [Optional[str]]: [None] and [''] are false. *)
Definition truthy (o : option string) : bool :=
  match o with
  | Some s => negb (String.eqb s "")
  | None => false
  end.

(** The statements between [try:] and [except] of [generate_response]. *)
Definition generate_response_body (message : string) (context : option context_map)
    (sender : string) : M (option string) :=
  log INFO ("Generating AI response for sender: " +:+ sender) ;;;
  (* Get conversation history *)
  conversation <- _get_conversation_history sender ;;
  (* Add current message to conversation *)
  asked <- datetime_now ;;
  conversation <- append_ref conversation
    {| role := "user"; turn_content := message; turn_timestamp := asked |} ;;
  (* Generate response based on provider *)
  response <- _generate_with_provider conversation context ;;
  if truthy response then
    (* Add AI response to conversation history *)
    answered <- datetime_now ;;
    conversation <- append_ref conversation
      {| role := "assistant"; turn_content := default "" response;
         turn_timestamp := answered |} ;;
    (* Update conversation history *)
    _update_conversation_history sender conversation ;;;
    ret response
  else ret None.

Definition generate_response (message : string) (context : option context_map)
    (sender : string) : M (option string) :=
  try_except (generate_response_body message context sender)
    (fun e =>
       log ERROR ("Error generating AI response: " +:+ str_of_exn e) ;;;
       ret None).

Definition clear_conversation_history (sender : option string) : M unit :=
  if truthy sender then
    modify (fun w =>
      with_processor
        (with_history (delete (default "" sender) (conversation_history (processor w)))
                      (processor w)) w) ;;;
    log INFO ("Cleared conversation history for " +:+ default "" sender)
  else
    modify (fun w => with_processor (with_history ∅ (processor w)) w) ;;;
    log INFO "Cleared all conversation history".

(** ** WhatsAppClient, the send path *)

(** The three placeholders [_send_message_web], [_send_message_business_api]
    and [_send_message_unofficial]: a log line, then [True]. *)
Definition _send_message_via (channel to text : string) : M bool :=
  log INFO ("[PLACEHOLDER] Sending via " +:+ channel +:+ " to " +:+ to +:+ ": " +:+ text) ;;;
  modify (fun w => with_outbox (outbox w ++ [(to, text)]) w) ;;;
  ret true.

Definition send_message (to text : string) : M bool :=
  try_except
    (log INFO ("Sending message to " +:+ to +:+ ": " +:+ take_str 50 text +:+ "...") ;;;
     w <- get ;;
     if negb (is_connected_flag (client w)) then
       log ERROR "WhatsApp client not connected" ;;;
       ret false
     else if String.eqb (client_type (client w)) "web" then
       _send_message_via "Web" to text
     else if String.eqb (client_type (client w)) "business_api" then
       _send_message_via "Business API" to text
     else if String.eqb (client_type (client w)) "unofficial" then
       _send_message_via "unofficial client" to text
     else ret false)
    (fun e =>
       log ERROR ("Error sending message: " +:+ str_of_exn e) ;;;
       ret false).

(** ** WhatsAppAIBot *)

(** [message.get('body', '')[:50]] *)
Definition body_preview (b : py_body) : result string :=
  match b with
  | Absent => Ok (take_str 50 "")
  | PyStr s => Ok (take_str 50 s)
  | PyNone => Raise (TypeError "'NoneType' object is not subscriptable")
  end.

Definition _handle_message (message : message) : M unit :=
  try_except
    (preview <- lift (body_preview (msg_body message)) ;;
     log INFO ("Received message from " +:+ msg_from message +:+ ": " +:+ preview +:+ "...") ;;;
     (* Process the message *)
     processed_message <- process_message message ;;
     if should_respond processed_message then
       (* Generate AI response *)
       ai_response <- generate_response (content processed_message)
                        (context processed_message) (msg_from message) ;;
       if truthy ai_response then
         (* Send response back *)
         send_message (msg_from message) (default "" ai_response) ;;;
         log INFO ("Sent AI response to " +:+ msg_from message)
       else ret tt
     else ret tt)
    (fun e =>
       log ERROR ("Error handling message: " +:+ str_of_exn e) ;;;
       (* Send error message if configured *)
       w <- get ;;
       if send_error_notifications w then
         send_message (msg_from message)
           "Sorry, I encountered an error processing your message. Please try again later." ;;;
         ret tt
       else ret tt).

(** The bot handles the messages of [ms] one after the other. *)
Fixpoint handle_all (ms : list message) : M unit :=
  match ms with
  | [] => ret tt
  | m :: rest => _handle_message m ;;; handle_all rest
  end.

(** The dictionary [get_stats] returns. *)
Record handler_stats : Type := {
  stats_blocked_contacts : nat;
  stats_allowed_contacts : nat;
  stats_rate_limited_contacts : nat;
  stats_total_message_history : nat
}.

Definition get_stats (self : message_handler) : handler_stats :=
  {| stats_blocked_contacts := size (blocked_contacts self);
     stats_allowed_contacts := size (allowed_contacts self);
     stats_rate_limited_contacts := size (message_timestamps self);
     stats_total_message_history :=
       sum_list (length <$> (map_to_list (message_timestamps self)).*2) |}.

(** ** WhatsAppClient, the connection *)

Definition with_client (c : whatsapp_client) (w : world) : world :=
  {| handler := handler w; processor := processor w; client := c;
     send_error_notifications := send_error_notifications w;
     outbox := outbox w; logs := logs w; events := events w |}.

Definition disconnect : M unit :=
  log INFO "Disconnecting WhatsApp client..." ;;;
  modify (fun w =>
    with_client {| is_connected_flag := false; client_type := client_type (client w) |} w) ;;;
  log INFO "WhatsApp client disconnected".

Definition is_connected : M bool :=
  w <- get ;;
  ret (is_connected_flag (client w)).

(* ===================================================================== *)
(** * Vocabulary of the properties                                        *)
(* ===================================================================== *)

(** The window of a sender: the timestamps recorded for it, none when the
    dictionary has no entry. *)
Definition window (w : world) (sender : string) : list Z :=
  default [] (message_timestamps (handler w) !! sender).

(** The world after the limiter has stored [l] for [sender] at an event. *)
Definition record_window (sender : string) (l : list Z) (w : world) : world :=
  with_handler
    (with_timestamps (<[sender := l]> (message_timestamps (handler w))) (handler w))
    (with_events (S (events w)) w).

(** The stored history of a sender. *)
Definition history (w : world) (sender : string) : option (list turn) :=
  conversation_history (processor w) !! sender.

(** No window is longer than the hourly cap. *)
Definition windows_bounded (w : world) : Prop :=
  forall sender l,
    message_timestamps (handler w) !! sender = Some l ->
    Z.of_nat (length l) <= max_messages_per_hour (handler w).

(** The worlds a bot can be in: it starts without any window, and then
    checks rate limits, processes and handles messages and has contacts
    blocked and unblocked, in any order. *)
Inductive reachable : world -> Prop :=
  | reach_start w :
      message_timestamps (handler w) = ∅ -> reachable w
  | reach_check w sender :
      reachable w -> reachable (snd (_check_rate_limit sender w))
  | reach_process w m :
      reachable w -> reachable (snd (process_message m w))
  | reach_handle w m :
      reachable w -> reachable (snd (_handle_message m w))
  | reach_block w contact :
      reachable w -> reachable (snd (add_blocked_contact contact w))
  | reach_unblock w contact :
      reachable w -> reachable (snd (remove_blocked_contact contact w)).

(** The dictionary of lines 60 to 69. *)
Definition initial_response (sender content : string) (is_group : bool)
    (message_type : string) (created : Z) : response_data :=
  {| content := content; sender := Some sender; is_group := Some is_group;
     message_type := Some message_type; should_respond := false;
     response_type := Some "text"; context := Some EmptyContext;
     timestamp := Some created; clear_history := None; action := None;
     error := None |}.

(** The dictionary of lines 130 to 134. *)
Definition error_response (e : exn) : response_data :=
  {| content := ""; sender := None; is_group := None;
     message_type := None; should_respond := false;
     response_type := None; context := None; timestamp := None;
     clear_history := None; action := None;
     error := Some (str_of_exn e) |}.

(** The first log line of [process_message]. *)
Definition processing_line (sender content : string) : level * string :=
  (INFO, "Processing message from " +:+ sender +:+ ": " +:+ take_str 50 content +:+ "...").

(** The world in which the filters of [process_message] run: one line is
    logged and the clock is read once. *)
Definition entered (sender content : string) (w : world) : world :=
  with_events (S (events w)) (with_logs (logs w ++ [processing_line sender content]) w).

(** ** The admission chain in the words of the specification *)

Inductive admission_step : Type :=
  | NotText                       (* 1. message type is not text *)
  | SenderBlocked                 (* 2. sender blocked *)
  | SenderNotAllowed              (* 3. allowlist non-empty, sender not in it *)
  | GroupsDisabled                (* 4. group message, group responses disabled *)
  | NotMentioned                  (* 5. group message, mention required, absent *)
  | RateLimited                   (* 6. rate limit exceeded *)
  | CommandMatched (command : string)   (* 7. a command matched *)
  | ContentAdmitted.                     (* 8. otherwise *)

(** Rate limit exceeded: the limiter is enabled and the stamps of the
    sender in the trailing hour are at least the cap. *)
Definition spec_rate_limit_exceeded (self : message_handler) (now : Z)
    (sender : string) : bool :=
  rate_limit_enabled self &&
  (max_messages_per_hour self <=?
   Z.of_nat (length (filter (fun t => now - hour < t)
                            (default [] (message_timestamps self !! sender))))).

(** The first terminating condition, in the order 1 to 8. *)
Definition spec_first_step (self : message_handler) (message_type sender content : string)
    (is_group mentioned : bool) (now : Z) : admission_step :=
  if bool_decide (message_type ≠ "text") then NotText
  else if bool_decide (sender ∈ blocked_contacts self) then SenderBlocked
  else if bool_decide (allowed_contacts self ≠ ∅ ∧ sender ∉ allowed_contacts self)
       then SenderNotAllowed
  else if is_group && negb (respond_to_groups self) then GroupsDisabled
  else if is_group && require_mention self && negb mentioned then NotMentioned
  else if spec_rate_limit_exceeded self now sender then RateLimited
  else match first_command command_patterns (strip (lower content)) with
       | Some command => CommandMatched command
       | None => ContentAdmitted
       end.

(** Which steps respond. *)
Definition spec_responds (step : admission_step) : bool :=
  match step with
  | NotText | SenderBlocked | SenderNotAllowed | GroupsDisabled | NotMentioned => false
  | RateLimited | CommandMatched _ | ContentAdmitted => true
  end.

(** The line each step logs when it ends the processing. *)
Definition step_log (step : admission_step) (sender message_type : string)
  : list (level * string) :=
  match step with
  | NotText => [(INFO, "Skipping non-text message type: " +:+ message_type)]
  | SenderBlocked => [(INFO, "Message from blocked contact: " +:+ sender)]
  | SenderNotAllowed => [(INFO, "Message from non-allowed contact: " +:+ sender)]
  | GroupsDisabled => [(INFO, "Group messages disabled")]
  | NotMentioned => [(INFO, "Bot not mentioned in group message")]
  | RateLimited => [(WARNING, "Rate limit exceeded for " +:+ sender)]
  | CommandMatched command =>
      [(INFO, "Processing command: " +:+ command +:+ " from " +:+ sender)]
  | ContentAdmitted => []
  end.

(** The alternatives of a command. *)
Definition alternatives_of (command : string) : list string :=
  default [] (snd <$> List.find (fun entry => String.eqb (fst entry) command)
                                command_patterns).

(** The result of the command [clear]: the canned reply and the tag. *)
Definition clear_result : command_result :=
  {| cr_content := "Conversation history cleared! ðŸ§¹"; cr_response_type := "text";
     cr_clear_history := Some true; cr_action := None |}.

(** The turns a successful exchange adds to a conversation. *)
Definition user_turn (text : string) (at_time : Z) : turn :=
  {| role := "user"; turn_content := text; turn_timestamp := at_time |}.

Definition assistant_turn (text : string) (at_time : Z) : turn :=
  {| role := "assistant"; turn_content := text; turn_timestamp := at_time |}.

(** [l] ends with a user turn holding [asked] and then an assistant turn
    holding [reply]. *)
Definition ends_with_exchange (l : list turn) (asked reply : string) : Prop :=
  exists older t1 t2, l = older ++ [user_turn asked t1; assistant_turn reply t2].

(** What [_update_conversation_history] stores for a conversation [l]
    under the cap [cap]. *)
Definition capped (cap : Z) (l : list turn) : list turn :=
  if cap <? Z.of_nat (length l) then slice_from (- cap) l else l.

(** Every run of a computation relates the world before to the world
    after by [R]. *)
Definition respects {A : Type} (R : world -> world -> Prop) (c : M A) : Prop :=
  forall w, R w (snd (c w)).

(** The part [f] of the world is the same before and after. *)
Definition same {B : Type} (f : world -> B) : world -> world -> Prop :=
  fun w w' => f w' = f w.

(** What a step of the bot may do to the limiter: its configuration
    stays, bounded windows stay bounded when the cap is not negative, and
    a disabled limiter records nothing. *)
Definition limiter_step : world -> world -> Prop :=
  fun w w' =>
    max_messages_per_hour (handler w') = max_messages_per_hour (handler w) /\
    rate_limit_enabled (handler w') = rate_limit_enabled (handler w) /\
    (0 <= max_messages_per_hour (handler w) -> windows_bounded w -> windows_bounded w') /\
    (rate_limit_enabled (handler w) = false ->
     message_timestamps (handler w') = message_timestamps (handler w)).

(** A relation between worlds that the bookkeeping of a method (log
    lines, the count of events, messages handed to the network) cannot
    break. *)
Class Frame (R : world -> world -> Prop) : Prop := {
  frame_preorder :: PreOrder R;
  frame_logs : forall w l, R w (with_logs l w);
  frame_events : forall w n, R w (with_events n w);
  frame_outbox : forall w o, R w (with_outbox o w)
}.

(** A computation ends without an exception. *)
Definition returns {A : Type} (c : M A) : Prop :=
  forall w, exists a w', c w = (Ok a, w').

(** A relation between worlds that log lines and the count of events
    cannot break. *)
Class Ledger (R : world -> world -> Prop) : Prop := {
  ledger_preorder :: PreOrder R;
  ledger_logs : forall w l, R w (with_logs l w);
  ledger_events : forall w n, R w (with_events n w)
}.

(** What the processing of a message of [sender] may change: the window
    of [sender], the log and the count of events, and nothing else. *)
Definition pipeline_step (sender : string) : world -> world -> Prop :=
  fun w w' =>
    (forall s, s <> sender ->
       message_timestamps (handler w') !! s = message_timestamps (handler w) !! s) /\
    with_timestamps ∅ (handler w') = with_timestamps ∅ (handler w) /\
    processor w' = processor w /\ client w' = client w /\ outbox w' = outbox w /\
    send_error_notifications w' = send_error_notifications w.

(** The senders that have a window keep one. *)
Definition senders_kept : world -> world -> Prop :=
  fun w w' =>
    dom (message_timestamps (handler w)) ⊆ dom (message_timestamps (handler w')).

(** What the generation of a reply for [sender] may change: the
    conversation of [sender], the log and the count of events, and
    nothing else. *)
Definition generation_step (sender : string) : world -> world -> Prop :=
  fun w w' =>
    (forall s, s <> sender -> history w' s = history w s) /\
    with_history ∅ (processor w') = with_history ∅ (processor w) /\
    handler w' = handler w /\ client w' = client w /\ outbox w' = outbox w /\
    send_error_notifications w' = send_error_notifications w.

(** A reference that designates, when it designates a stored list, the
    one of [sender]. *)
Definition ref_of (sender : string) (c : conversation_ref) : Prop :=
  match c with
  | Stored s => s = sender
  | Fresh _ => True
  end.

(** The shape of the prompt for a question [text] under the system
    prompt [sys] and the cap [cap]: the system prompt, then at most [cap]
    turns of which the last is the question. *)
Definition prompt_shape (sys text : string) (cap : Z) (messages : list (string * string))
  : Prop :=
  exists turns : list (string * string),
    messages = (("system", sys) :: turns) /\
    (Z.of_nat (length turns) <= cap) /\
    last turns = Some ("user", text).

(** The client types [send_message] has a branch for. *)
Definition known_client_type (t : string) : bool :=
  String.eqb t "web" || String.eqb t "business_api" || String.eqb t "unofficial".

(** The client can hand a message to the network. *)
Definition can_send (w : world) : bool :=
  is_connected_flag (client w) && known_client_type (client_type (client w)).

(** The text of the error notification of the bot. *)
Definition error_notification : string :=
  "Sorry, I encountered an error processing your message. Please try again later.".

(* ===================================================================== *)
(** * Lemmas and theorems                                                 *)
(* ===================================================================== *)

(** ** The rate limiter *)

(** Before a decision procedure: the outside world it has no use for. *)
Ltac tidy :=
  try clear acreate; try clear re_search_config; try clear re_sub_config;
  try clear clock.

Ltac run_monad :=
  unfold try_except, bind, lift, log, modify, get, ret, datetime_now.

Ltac simpl_world :=
  cbn [handler processor client send_error_notifications outbox logs events
       with_handler with_processor with_outbox with_logs with_events
       allowed_contacts blocked_contacts respond_to_groups require_mention
       rate_limit_enabled max_messages_per_hour message_timestamps bot_name
       with_timestamps provider system_prompt conversation_history
       max_history_length with_history fst snd].

(** The run of [_check_rate_limit], in one equation. *)
Lemma check_rate_limit_run (sender : string) (w : world) :
  _check_rate_limit sender w =
  if rate_limit_enabled (handler w) then
    let now := clock (events w) in
    let kept := filter (fun t => now - hour < t) (window w sender) in
    if max_messages_per_hour (handler w) <=? Z.of_nat (length kept)
    then (Ok false, record_window sender kept w)
    else (Ok true, record_window sender (kept ++ [now]) w)
  else (Ok true, w).
Proof.
  unfold _check_rate_limit, window. run_monad.
  destruct (rate_limit_enabled (handler w)); cbn [negb]; [|reflexivity].
  destruct (message_timestamps (handler w) !! sender) as [l|] eqn:Hl.
  - rewrite bool_decide_eq_false_2 by discriminate.
    unfold get_timestamps, set_timestamps. run_monad. simpl_world.
    rewrite Hl. simpl_world. rewrite lookup_insert_eq.
    unfold record_window. cbv [from_option id].
    case_match; simpl_world; rewrite ?insert_insert_eq; reflexivity.
  - rewrite bool_decide_eq_true_2 by reflexivity.
    unfold get_timestamps, set_timestamps. run_monad. simpl_world.
    rewrite lookup_insert_eq. simpl_world. rewrite lookup_insert_eq.
    unfold record_window. cbv [from_option id].
    case_match; simpl_world; rewrite ?insert_insert_eq; reflexivity.
Qed.

Lemma window_record_window (sender : string) (l : list Z) (w : world) :
  window (record_window sender l w) sender = l.
Proof.
  unfold window, record_window. simpl_world. rewrite lookup_insert_eq. reflexivity.
Qed.

Lemma window_record_window_ne (sender other : string) (l : list Z) (w : world) :
  sender <> other ->
  window (record_window sender l w) other = window w other.
Proof.
  intros Hne. unfold window, record_window. simpl_world.
  rewrite lookup_insert_ne by exact Hne. reflexivity.
Qed.

(** C3. [_check_rate_limit] first keeps, of the stamps of the sender,
    exactly those strictly greater than [now - 1 hour], in their order (a
    stamp equal to [now - 1 hour] is dropped); if as many stamps as the cap
    or more remain it returns [False] and stores the kept stamps without
    [now]; otherwise it stores the kept stamps followed by [now] and
    returns [True]; and when the limiter is disabled it returns [True] and
    leaves the world as it is. *)
Theorem check_rate_limit_prune_compare_record (sender : string) (w : world) :
  let now := clock (events w) in
  let kept := filter (fun t => now - hour < t) (window w sender) in
  (forall t, t ∈ kept <-> t ∈ window w sender /\ now - hour < t) /\
  (now - hour ∉ kept) /\
  (rate_limit_enabled (handler w) = true ->
   max_messages_per_hour (handler w) <= Z.of_nat (length kept) ->
   _check_rate_limit sender w = (Ok false, record_window sender kept w) /\
   window (record_window sender kept w) sender = kept) /\
  (rate_limit_enabled (handler w) = true ->
   Z.of_nat (length kept) < max_messages_per_hour (handler w) ->
   _check_rate_limit sender w = (Ok true, record_window sender (kept ++ [now]) w) /\
   window (record_window sender (kept ++ [now]) w) sender = kept ++ [now]) /\
  (rate_limit_enabled (handler w) = false ->
   _check_rate_limit sender w = (Ok true, w)).
Proof.
  intros now kept.
  assert (Hin : forall t, t ∈ kept <-> t ∈ window w sender /\ now - hour < t).
  { intros t. unfold kept. rewrite list_elem_of_filter. (tidy; tauto). }
  split; [exact Hin|].
  split; [intros Ht; apply Hin in Ht; tidy; lia|].
  split; [|split].
  - intros Hon Hfull. split; [|apply window_record_window].
    rewrite check_rate_limit_run, Hon. cbv zeta. fold now. fold kept.
    destruct (Z.leb_spec (max_messages_per_hour (handler w)) (Z.of_nat (length kept)));
      [reflexivity | lia].
  - intros Hon Hroom. split; [|apply window_record_window].
    rewrite check_rate_limit_run, Hon. cbv zeta. fold now. fold kept.
    destruct (Z.leb_spec (max_messages_per_hour (handler w)) (Z.of_nat (length kept)));
      [lia | reflexivity].
  - intros Hoff. rewrite check_rate_limit_run, Hoff. reflexivity.
Qed.

(** ** Frames: what a method leaves alone *)

Section Respects.

Context (R : world -> world -> Prop) `{HR : !Frame R}.

Local Set Default Proof Using "Type HR".

Lemma respects_ret {A} (a : A) : respects R (ret a).
Proof. intros w. cbn. reflexivity. Qed.

Lemma respects_raise {A} (e : exn) : respects R (@raise A e).
Proof. intros w. cbn. reflexivity. Qed.

Lemma respects_lift {A} (r : result A) : respects R (lift r).
Proof. intros w. cbn. reflexivity. Qed.

Lemma respects_get : respects R get.
Proof. intros w. cbn. reflexivity. Qed.

Lemma respects_log (l : level) (text : string) : respects R (log l text).
Proof. intros w. cbn. apply frame_logs. Qed.

Lemma respects_now : respects R datetime_now.
Proof. intros w. cbn. apply frame_events. Qed.

Lemma respects_bind {A B} (c : M A) (k : A -> M B) :
  respects R c -> (forall a, respects R (k a)) -> respects R (bind c k).
Proof.
  intros Hc Hk w. unfold bind. specialize (Hc w).
  destruct (c w) as [[a|e] w1]; cbn in *; [|exact Hc].
  etransitivity; [exact Hc | apply Hk].
Qed.

Lemma respects_try {A} (c : M A) (h : exn -> M A) :
  respects R c -> (forall e, respects R (h e)) -> respects R (try_except c h).
Proof.
  intros Hc Hh w. unfold try_except. specialize (Hc w).
  destruct (c w) as [[a|e] w1]; cbn in *; [exact Hc|].
  etransitivity; [exact Hc | apply Hh].
Qed.

End Respects.

Ltac respect :=
  repeat first
    [ match goal with |- Frame _ => exact _ end
    | simple apply respects_ret | simple apply respects_raise
    | simple apply respects_lift | simple apply respects_get
    | simple apply respects_log | simple apply respects_now
    | simple apply respects_bind | simple apply respects_try
    | progress intros
    | case_match ].

Global Instance same_handler_frame : Frame (same handler).
Proof.
  split; [split|..]; unfold same.
  - intros w. reflexivity.
  - intros a b c Hab Hbc. congruence.
  - reflexivity.
  - reflexivity.
  - reflexivity.
Qed.

Global Instance same_processor_frame : Frame (same processor).
Proof.
  split; [split|..]; unfold same.
  - intros w. reflexivity.
  - intros a b c Hab Hbc. congruence.
  - reflexivity.
  - reflexivity.
  - reflexivity.
Qed.

Lemma same_handler_limiter_step (w w' : world) :
  handler w' = handler w -> limiter_step w w'.
Proof.
  intros Heq. unfold limiter_step, windows_bounded. rewrite Heq. (tidy; tauto).
Qed.

Global Instance limiter_step_frame : Frame limiter_step.
Proof.
  split; [split|..].
  - intros w. apply same_handler_limiter_step. reflexivity.
  - intros a b c (Hab1 & Hab2 & Hab3 & Hab4) (Hbc1 & Hbc2 & Hbc3 & Hbc4).
    split; [congruence|]. split; [congruence|]. split.
    + intros Hpos Ha. apply Hbc3; [congruence|]. apply Hab3; assumption.
    + intros Hoff. rewrite Hbc4 by congruence. apply Hab4, Hoff.
  - intros w l. apply same_handler_limiter_step. reflexivity.
  - intros w n. apply same_handler_limiter_step. reflexivity.
  - intros w o. apply same_handler_limiter_step. reflexivity.
Qed.

Lemma respects_modify (R : world -> world -> Prop) (g : world -> world) :
  (forall w, R w (g w)) -> respects R (modify g).
Proof. intros Hg w. cbn. apply Hg. Qed.

Lemma respects_weaken {A} (R R' : world -> world -> Prop) (c : M A) :
  (forall w w', R w w' -> R' w w') -> respects R c -> respects R' c.
Proof. intros Himp Hc w. apply Himp, Hc. Qed.

Lemma respects_handler_limiter {A} (c : M A) :
  respects (same handler) c -> respects limiter_step c.
Proof. apply respects_weaken. intros w w'. apply same_handler_limiter_step. Qed.

(** The limiter keeps the cap, and bounded windows bounded. *)
Lemma check_rate_limit_limiter_step (sender : string) :
  respects limiter_step (_check_rate_limit sender).
Proof.
  intros w. rewrite check_rate_limit_run.
  destruct (rate_limit_enabled (handler w)) eqn:Hon;
    [|apply same_handler_limiter_step; reflexivity].
  cbv zeta.
  set (kept := filter (fun t => clock (events w) - hour < t) (window w sender)).
  assert (Hkept : 0 <= max_messages_per_hour (handler w) -> windows_bounded w ->
                  Z.of_nat (length kept) <= max_messages_per_hour (handler w)).
  { intros Hpos Hb. unfold kept, window.
    destruct (message_timestamps (handler w) !! sender) as [l|] eqn:Hl; cbn.
    - specialize (Hb _ _ Hl).
      pose proof (length_filter (fun t => clock (events w) - hour < t) l). lia.
    - exact Hpos. }
  destruct (Z.leb_spec (max_messages_per_hour (handler w)) (Z.of_nat (length kept)))
    as [Hfull|Hroom];
    (split; [reflexivity|]); (split; [reflexivity|]);
    (split; [|intros Hoff; congruence]);
    intros Hpos Hb s l; cbn [snd]; unfold record_window; simpl_world;
    (destruct (decide (sender = s)) as [->|Hne];
      [rewrite lookup_insert_eq; intros [= <-]
      | rewrite lookup_insert_ne by exact Hne; apply Hb]).
  - apply Hkept; assumption.
  - rewrite length_app. cbn. lia.
Qed.

Lemma check_rate_limit_same_processor (sender : string) :
  respects (same processor) (_check_rate_limit sender).
Proof.
  intros w. rewrite check_rate_limit_run. unfold same.
  repeat case_match; reflexivity.
Qed.

Lemma process_command_respects (R : world -> world -> Prop) `{!Frame R}
    (content sender : string) :
  respects R (_process_command content sender).
Proof. unfold _process_command. respect. Qed.

Lemma process_message_limiter_step (m : message) :
  respects limiter_step (process_message m).
Proof.
  unfold process_message, process_message_body, rate_limit_and_respond.
  respect; first [apply check_rate_limit_limiter_step | apply process_command_respects; apply _].
Qed.

Lemma process_message_same_processor (m : message) :
  respects (same processor) (process_message m).
Proof.
  unfold process_message, process_message_body, rate_limit_and_respond.
  respect; first [apply check_rate_limit_same_processor | apply process_command_respects; apply _].
Qed.

Lemma read_ref_respects (R : world -> world -> Prop) `{!Frame R} (c : conversation_ref) :
  respects R (read_ref c).
Proof. destruct c; intros w; cbn; reflexivity. Qed.

Lemma append_ref_same_handler (c : conversation_ref) (t : turn) :
  respects (same handler) (append_ref c t).
Proof.
  destruct c; unfold append_ref; respect.
  apply respects_modify. reflexivity.
Qed.

Lemma update_history_same_handler (sender : string) (c : conversation_ref) :
  respects (same handler) (_update_conversation_history sender c).
Proof.
  unfold _update_conversation_history. respect;
    first [apply read_ref_respects; exact _ | apply respects_modify; reflexivity].
Qed.

Lemma generate_with_provider_same_handler (c : conversation_ref) (ctx : option context_map) :
  respects (same handler) (_generate_with_provider c ctx).
Proof.
  unfold _generate_with_provider, _generate_with_openai, _generate_with_anthropic,
    _generate_with_local_model.
  respect; first [apply read_ref_respects; exact _ | apply respects_modify; reflexivity].
Qed.

Lemma generate_response_same_handler (text : string) (ctx : option context_map)
    (sender : string) :
  respects (same handler) (generate_response text ctx sender).
Proof.
  unfold generate_response, generate_response_body, _get_conversation_history.
  respect;
    first [ apply append_ref_same_handler | apply generate_with_provider_same_handler
          | apply update_history_same_handler ].
Qed.

Lemma send_message_same_handler (to text : string) :
  respects (same handler) (send_message to text).
Proof.
  unfold send_message, _send_message_via. respect; apply respects_modify; reflexivity.
Qed.

Lemma send_message_same_processor (to text : string) :
  respects (same processor) (send_message to text).
Proof.
  unfold send_message, _send_message_via. respect; apply respects_modify; reflexivity.
Qed.

Lemma handle_message_limiter_step (m : message) :
  respects limiter_step (_handle_message m).
Proof.
  unfold _handle_message.
  respect;
    first [ apply process_message_limiter_step
          | apply respects_handler_limiter;
            first [apply generate_response_same_handler | apply send_message_same_handler] ].
Qed.

Lemma add_blocked_contact_limiter_step (contact : string) :
  respects limiter_step (add_blocked_contact contact).
Proof.
  unfold add_blocked_contact. respect. apply respects_modify.
  intros w. unfold limiter_step, windows_bounded. simpl_world. (tidy; tauto).
Qed.

Lemma remove_blocked_contact_limiter_step (contact : string) :
  respects limiter_step (remove_blocked_contact contact).
Proof.
  unfold remove_blocked_contact. respect. apply respects_modify.
  intros w. unfold limiter_step, windows_bounded. simpl_world. (tidy; tauto).
Qed.

(** In every world the bot can reach, no window is longer than a cap that
    is not negative, and a disabled limiter has no window at all. *)
Lemma reachable_limiter (w : world) :
  reachable w ->
  (0 <= max_messages_per_hour (handler w) -> windows_bounded w) /\
  (rate_limit_enabled (handler w) = false -> message_timestamps (handler w) = ∅).
Proof.
  assert (Hstep : forall w0 w1, limiter_step w0 w1 ->
            ((0 <= max_messages_per_hour (handler w0) -> windows_bounded w0) /\
             (rate_limit_enabled (handler w0) = false -> message_timestamps (handler w0) = ∅)) ->
            (0 <= max_messages_per_hour (handler w1) -> windows_bounded w1) /\
            (rate_limit_enabled (handler w1) = false -> message_timestamps (handler w1) = ∅)).
  { intros w0 w1 (Hmax & Hon & Hb & Hoff) [IH1 IH2]. split.
    - intros Hpos. rewrite Hmax in Hpos. auto.
    - intros Hdis. rewrite Hon in Hdis. rewrite Hoff by exact Hdis. auto. }
  induction 1 as [w Hempty|w s _ IH|w m _ IH|w m _ IH|w c _ IH|w c _ IH].
  - split; [|auto]. intros _ s l. rewrite Hempty, lookup_empty. discriminate.
  - eapply Hstep; [apply check_rate_limit_limiter_step | exact IH].
  - eapply Hstep; [apply process_message_limiter_step | exact IH].
  - eapply Hstep; [apply handle_message_limiter_step | exact IH].
  - eapply Hstep; [apply add_blocked_contact_limiter_step | exact IH].
  - eapply Hstep; [apply remove_blocked_contact_limiter_step | exact IH].
Qed.

(** C4. In a world the bot can reach, after a rate-limit check the window
    of the sender holds only stamps strictly younger than 60 minutes
    before the [now] of the check, and a check that rejects stores the
    pruned window without appending to it; both hold whatever the cap.
    When the cap is not negative, the window is moreover not longer
    than the cap. *)
Theorem window_fresh_and_bounded_after_check (w : world) (sender : string) :
  reachable w ->
  let now := clock (events w) in
  let after := snd (_check_rate_limit sender w) in
  Forall (fun t => now - hour < t) (window after sender) /\
  (fst (_check_rate_limit sender w) = Ok false ->
   window after sender = filter (fun t => now - hour < t) (window w sender) /\
   (length (window after sender) <= length (window w sender))%nat) /\
  (0 <= max_messages_per_hour (handler w) ->
   Z.of_nat (length (window after sender)) <= max_messages_per_hour (handler after)).
Proof.
  intros Hreach now after.
  destruct (reachable_limiter w Hreach) as [Hb Hoff].
  assert (Hlen : 0 <= max_messages_per_hour (handler w) ->
            Z.of_nat (length (filter (fun t => now - hour < t) (window w sender)))
              <= max_messages_per_hour (handler w)).
  { intros Hpos. specialize (Hb Hpos). unfold window.
    destruct (message_timestamps (handler w) !! sender) as [l|] eqn:Hl; cbn; [|exact Hpos].
    specialize (Hb _ _ Hl). pose proof (length_filter (fun t => now - hour < t) l). lia. }
  subst after. rewrite check_rate_limit_run.
  destruct (rate_limit_enabled (handler w)) eqn:Hon.
  - cbv zeta. fold now.
    set (kept := filter (fun t => now - hour < t) (window w sender)) in *.
    assert (Hfresh : Forall (fun t => now - hour < t) kept).
    { apply Forall_forall. intros t Ht. apply list_elem_of_filter in Ht. (tidy; tauto). }
    destruct (Z.leb_spec (max_messages_per_hour (handler w)) (Z.of_nat (length kept)))
      as [Hfull|Hroom]; cbn [fst snd]; rewrite window_record_window.
    + split; [exact Hfresh|]. split; [|exact Hlen].
      intros _. split; [reflexivity|]. apply length_filter.
    + split; [apply Forall_app; split; [exact Hfresh|repeat constructor; unfold hour; lia]|].
      split; [discriminate|].
      intros _. rewrite length_app.
      cbn [length record_window handler with_handler with_events
           max_messages_per_hour with_timestamps]. lia.
  - cbn [fst snd]. unfold window. rewrite (Hoff eq_refl), lookup_empty. cbn.
    split; [constructor|]. split; [discriminate|]. intros Hpos. exact Hpos.
Qed.

(** ** The command router *)

Lemma append_last_cons (a : string) (c x : ascii) (r : string) :
  a +:+ String c EmptyString = String x r ->
  (a = EmptyString /\ c = x /\ r = EmptyString) \/
  (exists a', a = String x a' /\ r = a' +:+ String c EmptyString).
Proof.
  destruct a as [|y a']; cbn; intros [= -> <-]; [left|right]; eauto.
Qed.

(** What [rstrip] returns does not end with white space. *)
Lemma rstrip_last (s a : string) (c : ascii) :
  rstrip s = a +:+ String c EmptyString -> is_space c = false.
Proof.
  revert a. induction s as [|x r IH]; intros a; cbn.
  - destruct a; discriminate.
  - destruct (rstrip r) as [|y r'] eqn:Hr.
    + destruct (is_space x) eqn:Hx; intros Heq; symmetry in Heq.
      * destruct a; discriminate.
      * apply append_last_cons in Heq as [(_ & -> & _)|(a' & _ & Hnil)]; [exact Hx|].
        destruct a'; discriminate.
    + intros Heq; symmetry in Heq.
      apply append_last_cons in Heq as [(_ & _ & Hnil)|(a' & _ & Htail)]; [discriminate|].
      apply (IH a'). exact Htail.
Qed.

Lemma strip_not_before_newline (s a : string) : strip s <> a +:+ newline.
Proof.
  unfold strip, newline. intros Heq. apply rstrip_last in Heq. discriminate.
Qed.

(** On a stripped body the pattern [^(?:a1|a2|...)$] matches when the body
    is one of the alternatives, and only then. *)
Lemma match_alternatives_strip (alts : list string) (s : string) :
  match_alternatives alts (strip s) = true <-> strip s ∈ alts.
Proof.
  unfold match_alternatives. rewrite existsb_exists, list_elem_of_In. split.
  - intros (a & Hin & Hm). apply orb_true_iff in Hm as [Hm|Hm];
      apply String.eqb_eq in Hm.
    + rewrite Hm. exact Hin.
    + exfalso. eapply strip_not_before_newline, Hm.
  - intros Hin. exists (strip s). split; [exact Hin|].
    rewrite String.eqb_refl. reflexivity.
Qed.

Lemma first_command_alternatives (s command : string) :
  first_command command_patterns (strip s) = Some command <->
  strip s ∈ alternatives_of command.
Proof.
  unfold command_patterns, first_command. split.
  - repeat match goal with
      | |- context [if match_alternatives ?a ?b then _ else _] =>
          destruct (match_alternatives a b) eqn:?;
            [intros [= <-]; apply match_alternatives_strip; assumption|]
      end.
    discriminate.
  - generalize (strip s). intros b Hin.
    unfold alternatives_of, command_patterns in Hin. cbn [List.find fst snd] in Hin.
    repeat match type of Hin with
      | context [if String.eqb ?a command then _ else _] =>
          destruct (String.eqb_spec a command) as [<-|_];
            [cbn in Hin; set_unfold in Hin;
             repeat (destruct Hin as [->|Hin]; [reflexivity|]); contradiction|]
      end.
    cbn in Hin. set_solver.
Qed.

(** C6. A command is recognised on the whole trimmed, lower-cased body:
    the five patterns are tried in the order help, status, clear, stop,
    start, the first that matches decides the result and no body matches
    two of them; a pattern matches exactly when the body is one of its
    alternatives.  The bodies "/clear", "CLEAR" and "reset" give the same
    result, the canned reply with the clear-history tag, and "please
    clear" is no command. *)
Theorem command_recognition_is_exact (text sender : string) (w : world) :
  let body := strip (lower text) in
  map fst command_patterns = ["help"; "status"; "clear"; "stop"; "start"] /\
  fst (_process_command text sender w) =
    Ok ((fun command => _handle_command command sender)
          <$> first_command command_patterns body) /\
  (forall command,
     first_command command_patterns body = Some command <->
     body ∈ alternatives_of command) /\
  (forall c1 c2,
     body ∈ alternatives_of c1 -> body ∈ alternatives_of c2 -> c1 = c2) /\
  alternatives_of "clear" = ["clear"; "/clear"; "reset"] /\
  fst (_process_command "/clear" sender w) = Ok (Some clear_result) /\
  fst (_process_command "CLEAR" sender w) = Ok (Some clear_result) /\
  fst (_process_command "reset" sender w) = Ok (Some clear_result) /\
  fst (_process_command "please clear" sender w) = Ok None.
Proof.
  intros body.
  split; [reflexivity|].
  split.
  { unfold _process_command. fold body.
    destruct (first_command command_patterns body); reflexivity. }
  split; [intros command; apply first_command_alternatives|].
  split.
  { intros c1 c2 H1 H2.
    apply first_command_alternatives in H1, H2. congruence. }
  repeat split; reflexivity.
Qed.

(** ** The admission chain *)

Lemma not_allowed_test (self : message_handler) (sender : string) :
  negb (bool_decide (allowed_contacts self = ∅)) && negb (_is_allowed_contact self sender) =
  bool_decide (allowed_contacts self ≠ ∅ ∧ sender ∉ allowed_contacts self).
Proof.
  unfold _is_allowed_contact.
  repeat case_bool_decide; cbn; try reflexivity; exfalso; (tidy; tauto).
Qed.

Lemma not_text_test (message_type : string) :
  negb (String.eqb message_type "text") = bool_decide (message_type ≠ "text").
Proof.
  destruct (String.eqb_spec message_type "text"); case_bool_decide; cbn; congruence.
Qed.

(** The limiter run from the world in which the filters have passed. *)
Lemma check_rate_limit_exceeded (sender : string) (w : world) :
  _check_rate_limit sender w =
  if spec_rate_limit_exceeded (handler w) (clock (events w)) sender
  then (Ok false,
        record_window sender
          (filter (fun t => clock (events w) - hour < t) (window w sender)) w)
  else if rate_limit_enabled (handler w)
       then (Ok true,
             record_window sender
               (filter (fun t => clock (events w) - hour < t) (window w sender)
                ++ [clock (events w)]) w)
       else (Ok true, w).
Proof.
  rewrite check_rate_limit_run. unfold spec_rate_limit_exceeded, window.
  destruct (rate_limit_enabled (handler w)); cbn [andb]; [|reflexivity].
  cbv zeta. case_match; reflexivity.
Qed.

(** Steps 6 to 8, from the world [w] in which the filters have passed. *)
Lemma rate_limit_and_respond_run (self : message_handler) (sender text : string)
    (is_group : bool) (data : response_data) (cleaned : string) (w : world) :
  _clean_message_content self text is_group = Ok cleaned ->
  let now := clock (events w) in
  let step :=
    if spec_rate_limit_exceeded (handler w) now sender then RateLimited
    else match first_command command_patterns (strip (lower text)) with
         | Some command => CommandMatched command
         | None => ContentAdmitted
         end in
  exists r w',
    rate_limit_and_respond self sender text is_group data w = (Ok r, w') /\
    logs w' = logs w ++ step_log step sender (default "text" (message_type data)) /\
    match step with
    | RateLimited =>
        r = set_content rate_limit_notice (set_should_respond true data) /\
        window w' sender = filter (fun t => now - hour < t) (window w sender)
    | CommandMatched command =>
        r = set_should_respond true (update data (_handle_command command sender))
    | _ =>
        exists stamped,
          r = set_should_respond true
                (set_context (AdmitContext is_group sender text cleaned stamped)
                   (set_content cleaned data))
    end.
Proof.
  intros Hclean now step. subst step.
  unfold rate_limit_and_respond. unfold bind at 1.
  rewrite check_rate_limit_exceeded. fold now.
  destruct (spec_rate_limit_exceeded (handler w) now sender).
  { run_monad. cbn [negb]. eexists _, _. split; [reflexivity|].
    split; [reflexivity|]. split; [reflexivity|].
    simpl_world. apply window_record_window. }
  destruct (rate_limit_enabled (handler w));
    cbn [negb]; unfold _process_command; run_monad;
    (destruct (first_command command_patterns (strip (lower text))) as [command|];
     [ eexists _, _; split; [reflexivity|]; simpl_world; split; reflexivity
     | rewrite Hclean; eexists _, _; split; [reflexivity|]; simpl_world;
       rewrite app_nil_r; split; [reflexivity|]; eexists; reflexivity ]).
Qed.

(** C1. When no fault occurs, [process_message] ends at the first step of
    the chain of the specification that applies: 1 not a text message,
    2 sender blocked, 3 allowlist not empty and sender outside it, 4 group
    message with group responses disabled, 5 group message, mention
    required, bot not mentioned, 6 rate limit exceeded, 7 a command
    matched, 8 otherwise the cleaned content is admitted.  The line it
    logs names the step.  Steps 1 to 5 return the initial dictionary, with
    [should_respond] false, and leave the handler alone; step 6 returns
    the rate-limit notice with [should_respond] true; steps 7 and 8
    respond as well. *)
Theorem admission_chain_order (m : message) (w : world) (text : string)
    (mentioned : bool) (cleaned : string) :
  let self := handler w in
  let sender := msg_from m in
  let is_group := default false (msg_isGroupMsg m) in
  let message_type := default "text" (msg_type m) in
  body_strip (msg_body m) = Ok text ->
  (is_group = true -> _is_bot_mentioned self text = Ok mentioned) ->
  _clean_message_content self text is_group = Ok cleaned ->
  let now := clock (S (events w)) in
  let step := spec_first_step self message_type sender text is_group mentioned now in
  let start := initial_response sender text is_group message_type (clock (events w)) in
  exists r w',
    process_message m w = (Ok r, w') /\
    should_respond r = spec_responds step /\
    logs w' = logs w ++ [processing_line sender text] ++ step_log step sender message_type /\
    match step with
    | NotText | SenderBlocked | SenderNotAllowed | GroupsDisabled | NotMentioned =>
        r = start /\ handler w' = handler w
    | RateLimited =>
        r = set_content rate_limit_notice (set_should_respond true start) /\
        window w' sender = filter (fun t => now - hour < t) (window w sender)
    | CommandMatched command =>
        r = set_should_respond true (update start (_handle_command command sender))
    | ContentAdmitted =>
        exists stamped,
          r = set_should_respond true
                (set_context (AdmitContext is_group sender text cleaned stamped)
                   (set_content cleaned start))
    end.
Proof.
  intros self sender is_group message_type Hbody Hmention Hclean now step start.
  unfold process_message, process_message_body. run_monad.
  rewrite Hbody. fold sender is_group message_type. simpl_world.
  rewrite not_text_test.
  subst step. unfold spec_first_step.
  destruct (bool_decide (message_type ≠ "text")).
  { simpl_world. eexists _, _. split; [reflexivity|]. simpl_world.
    split; [reflexivity|]. split; [|split; reflexivity].
    rewrite <- app_assoc. reflexivity. }
  simpl_world. fold self. unfold _is_blocked_contact.
  destruct (bool_decide (sender ∈ blocked_contacts self)).
  { simpl_world. eexists _, _. split; [reflexivity|]. simpl_world.
    split; [reflexivity|]. split; [|split; reflexivity].
    rewrite <- app_assoc. reflexivity. }
  rewrite not_allowed_test.
  destruct (bool_decide (allowed_contacts self ≠ ∅ ∧ sender ∉ allowed_contacts self)).
  { simpl_world. eexists _, _. split; [reflexivity|]. simpl_world.
    split; [reflexivity|]. split; [|split; reflexivity].
    rewrite <- app_assoc. reflexivity. }
  assert (Hpass :
    exists r w',
      (let (r0, w'0) :=
         rate_limit_and_respond self sender text is_group start
           (with_events (S (events w))
              (with_logs (logs w ++ [processing_line sender text]) w)) in
       match r0 with
       | Ok a => (Ok a, w'0)
       | Raise e =>
           (Ok (error_response e),
            with_logs (logs w'0 ++ [(ERROR, "Error processing message: " +:+ str_of_exn e)])
              w'0)
       end) = (Ok r, w') /\
      let step :=
        if spec_rate_limit_exceeded self now sender then RateLimited
        else match first_command command_patterns (strip (lower text)) with
             | Some command => CommandMatched command
             | None => ContentAdmitted
             end in
      should_respond r = spec_responds step /\
      logs w' = logs w ++ [processing_line sender text] ++ step_log step sender message_type /\
      match step with
      | NotText | SenderBlocked | SenderNotAllowed | GroupsDisabled | NotMentioned =>
          r = start /\ handler w' = handler w
      | RateLimited =>
          r = set_content rate_limit_notice (set_should_respond true start) /\
          window w' sender = filter (fun t => now - hour < t) (window w sender)
      | CommandMatched command =>
          r = set_should_respond true (update start (_handle_command command sender))
      | ContentAdmitted =>
          exists stamped,
            r = set_should_respond true
                  (set_context (AdmitContext is_group sender text cleaned stamped)
                     (set_content cleaned start))
      end).
  { destruct (rate_limit_and_respond_run self sender text is_group start cleaned
                (with_events (S (events w))
                   (with_logs (logs w ++ [processing_line sender text]) w)) Hclean)
      as (r & w' & Hrun & Hlogs & Hstep).
    rewrite Hrun. exists r, w'. split; [reflexivity|].
    revert Hlogs Hstep. simpl_world. fold self now. cbv zeta.
    destruct (spec_rate_limit_exceeded self now sender);
      [|destruct (first_command command_patterns (strip (lower text)))].
    - intros Hlogs [-> Hwin]. split; [reflexivity|]. split.
      + rewrite Hlogs, <- app_assoc. reflexivity.
      + split; [reflexivity|]. exact Hwin.
    - intros Hlogs ->. split; [reflexivity|]. split; [|reflexivity].
      rewrite Hlogs, <- app_assoc. reflexivity.
    - intros Hlogs [stamped ->]. split; [reflexivity|]. split; [|eexists; reflexivity].
      rewrite Hlogs, <- app_assoc. reflexivity. }
  clearbody is_group.
  destruct is_group; cbn [andb negb]; [|exact Hpass].
  destruct (respond_to_groups self); cbn [andb negb].
  2:{ simpl_world. eexists _, _. split; [reflexivity|]. simpl_world.
      split; [reflexivity|]. split; [|split; reflexivity].
      rewrite <- app_assoc. reflexivity. }
  destruct (require_mention self); cbn [andb negb]; [|exact Hpass].
  rewrite (Hmention eq_refl).
  destruct mentioned; cbn [andb negb]; [exact Hpass|].
  simpl_world. eexists _, _. split; [reflexivity|]. simpl_world.
  split; [reflexivity|]. split; [|split; reflexivity].
  rewrite <- app_assoc. reflexivity.
Qed.

(** ** Faults *)

Lemma returns_ret {A} (a : A) : returns (ret a).
Proof. intros w. eexists _, _. reflexivity. Qed.

Lemma returns_get : returns get.
Proof. intros w. eexists _, _. reflexivity. Qed.

Lemma returns_modify (g : world -> world) : returns (modify g).
Proof. intros w. eexists _, _. reflexivity. Qed.

Lemma returns_log (l : level) (text : string) : returns (log l text).
Proof. apply returns_modify. Qed.

Lemma returns_now : returns datetime_now.
Proof. intros w. eexists _, _. reflexivity. Qed.

Lemma returns_bind {A B} (c : M A) (k : A -> M B) :
  returns c -> (forall a, returns (k a)) -> returns (bind c k).
Proof.
  intros Hc Hk w. unfold bind. destruct (Hc w) as (a & w1 & ->). apply Hk.
Qed.

(** A [try] whose handler ends without an exception ends without one,
    whatever its body does. *)
Lemma returns_try {A} (c : M A) (h : exn -> M A) :
  (forall e, returns (h e)) -> returns (try_except c h).
Proof.
  intros Hh w. unfold try_except. destruct (c w) as [[a|e] w1].
  - eexists _, _. reflexivity.
  - apply Hh.
Qed.

Ltac returning :=
  repeat first
    [ simple apply returns_ret | simple apply returns_get
    | simple apply returns_log | simple apply returns_now
    | simple apply returns_modify
    | simple apply returns_try | simple apply returns_bind
    | progress intros
    | case_match ].

Lemma process_message_returns (m : message) : returns (process_message m).
Proof. unfold process_message. returning. Qed.

Lemma generate_response_returns (text : string) (ctx : option context_map)
    (sender : string) : returns (generate_response text ctx sender).
Proof. unfold generate_response. returning. Qed.

Lemma send_message_returns (to text : string) : returns (send_message to text).
Proof. unfold send_message. returning. Qed.

Lemma handle_message_returns (m : message) : returns (_handle_message m).
Proof. unfold _handle_message. returning. apply send_message_returns. Qed.

Lemma handle_all_returns (ms : list message) : returns (handle_all ms).
Proof.
  induction ms as [|m rest IH]; cbn [handle_all].
  - apply returns_ret.
  - apply returns_bind; [apply handle_message_returns | intros _; exact IH].
Qed.

(** C8. [process_message] never lets an exception out: it always returns
    a dictionary, and when the statements of its [try] raise [e] the
    dictionary is the one with [should_respond] false and [str(e)] under
    [error], the fault being logged; so neither the handling of a single
    message nor the handling of a sequence of messages by the bot ends
    with an exception. *)
Theorem process_message_catches_faults (m : message) (w : world) :
  (exists r w', process_message m w = (Ok r, w')) /\
  (forall e w1,
     process_message_body m w = (Raise e, w1) ->
     process_message m w =
       (Ok (error_response e),
        with_logs (logs w1 ++ [(ERROR, "Error processing message: " +:+ str_of_exn e)]) w1) /\
     should_respond (error_response e) = false /\
     error (error_response e) = Some (str_of_exn e)) /\
  (exists u w', _handle_message m w = (Ok u, w')) /\
  (forall ms, exists u w', handle_all (m :: ms) w = (Ok u, w')).
Proof.
  split; [apply process_message_returns|].
  split.
  { intros e w1 Hraise. unfold process_message, try_except. rewrite Hraise.
    repeat split. }
  split; [apply handle_message_returns|].
  intros ms. apply handle_all_returns.
Qed.

(** ** Contact lists *)

(** C7. A sender on the blocklist is rejected whatever the allowlist
    holds: [process_message] returns [should_respond] false and does not
    touch the handler.  With an empty allowlist a sender that is not
    blocked passes both contact tests, and its direct text message is
    responded to. *)
Theorem blocklist_first_empty_allowlist_open (m : message) (w : world) :
  let self := handler w in
  let sender := msg_from m in
  (sender ∈ blocked_contacts self ->
   exists r w',
     process_message m w = (Ok r, w') /\
     should_respond r = false /\ handler w' = handler w) /\
  (allowed_contacts self = ∅ ->
   sender ∉ blocked_contacts self ->
   _is_blocked_contact self sender = false /\
   _is_allowed_contact self sender = true /\
   (forall text,
      msg_body m = PyStr text ->
      default "text" (msg_type m) = "text" ->
      default false (msg_isGroupMsg m) = false ->
      exists r w', process_message m w = (Ok r, w') /\ should_respond r = true)).
Proof.
  intros self sender. split.
  - intros Hblocked.
    unfold process_message, process_message_body. run_monad.
    destruct (body_strip (msg_body m)) as [text|e].
    2:{ eexists _, _. split; [reflexivity|]. split; reflexivity. }
    simpl_world. destruct (negb _).
    { eexists _, _. split; [reflexivity|]. split; reflexivity. }
    simpl_world. fold self sender. unfold _is_blocked_contact.
    rewrite bool_decide_eq_true_2 by exact Hblocked.
    eexists _, _. split; [reflexivity|]. split; reflexivity.
  - intros Hempty Hfree.
    assert (Hb : _is_blocked_contact self sender = false).
    { unfold _is_blocked_contact. apply bool_decide_eq_false_2. exact Hfree. }
    assert (Ha : _is_allowed_contact self sender = true).
    { unfold _is_allowed_contact. rewrite bool_decide_eq_true_2 by exact Hempty.
      reflexivity. }
    split; [exact Hb|]. split; [exact Ha|].
    intros text Hbody Htype Hdirect.
    unfold process_message, process_message_body. run_monad.
    rewrite Hbody, Htype, Hdirect. cbn [body_strip]. simpl_world.
    cbn [String.eqb Ascii.eqb Bool.eqb negb].
    simpl_world. fold self sender. rewrite Hb, Ha. cbn [negb andb].
    rewrite andb_false_r.
    destruct (rate_limit_and_respond_run self sender (strip text) false
                (initial_response sender (strip text) false "text" (clock (events w)))
                (collapse_whitespace (strip (strip text)))
                (with_events (S (events w))
                   (with_logs (logs w ++ [processing_line sender (strip text)]) w))
                eq_refl)
      as (r & w' & Hrun & _ & Hstep).
    unfold initial_response, processing_line in Hrun. rewrite Hrun.
    exists r, w'. split; [reflexivity|].
    revert Hstep. cbv zeta.
    destruct (spec_rate_limit_exceeded _ _ _);
      [|destruct (first_command command_patterns (strip (lower (strip text))))].
    + intros [-> _]. reflexivity.
    + intros ->. reflexivity.
    + intros [stamped ->]. reflexivity.
Qed.

(** ** The conversation store *)

Lemma generate_with_provider_same_processor (c : conversation_ref)
    (ctx : option context_map) :
  respects (same processor) (_generate_with_provider c ctx).
Proof.
  unfold _generate_with_provider, _generate_with_openai, _generate_with_anthropic,
    _generate_with_local_model.
  respect; first [apply read_ref_respects; exact _ | apply respects_modify; reflexivity].
Qed.

Lemma alter_lookup_insert {A} (f : A -> A) (m : gmap string A) (i : string) (x : A) :
  m !! i = Some x -> alter f i m = <[i := f x]> m.
Proof.
  intros Hx. apply map_eq. intros j.
  destruct (decide (i = j)) as [<-|Hne].
  - rewrite lookup_alter_eq, lookup_insert_eq, Hx. reflexivity.
  - rewrite lookup_alter_ne, lookup_insert_ne by exact Hne. reflexivity.
Qed.

(** What a call of [generate_response] returns and what it leaves in the
    store.  Either the provider gave a reply, which is returned, and the
    history of the sender is the capped old history with the two new
    turns; or nothing is returned, and the store differs from the old one
    by the user turn appended to the list the sender already had. *)
Lemma generate_response_outcome (text : string) (ctx : option context_map)
    (sender : string) (w : world) :
  let old := history w sender in
  let cap := max_history_length (processor w) in
  let asked := clock (events w) in
  let out := generate_response text ctx sender w in
  (exists reply answered,
     fst out = Ok (Some reply) /\ reply <> "" /\
     max_history_length (processor (snd out)) = cap /\
     history (snd out) sender =
       Some (capped cap (default [] old ++
                         [user_turn text asked; assistant_turn reply answered]))) \/
  (fst out = Ok None /\
   max_history_length (processor (snd out)) = cap /\
   conversation_history (processor (snd out)) =
     match old with
     | Some l => <[sender := l ++ [user_turn text asked]]> (conversation_history (processor w))
     | None => conversation_history (processor w)
     end).
Proof.
  intros old cap asked out.
  enough (Hout : exists r w', out = (r, w') /\
    ((exists reply answered,
        r = Ok (Some reply) /\ reply <> "" /\
        max_history_length (processor w') = cap /\
        history w' sender =
          Some (capped cap (default [] old ++
                            [user_turn text asked; assistant_turn reply answered]))) \/
     (r = Ok None /\
      max_history_length (processor w') = cap /\
      conversation_history (processor w') =
        match old with
        | Some l => <[sender := l ++ [user_turn text asked]]> (conversation_history (processor w))
        | None => conversation_history (processor w)
        end))).
  { destruct Hout as (r & w' & -> & H). exact H. }
  subst out.
  unfold generate_response, generate_response_body, _get_conversation_history.
  run_monad. simpl_world. unfold history in old. fold old.
  destruct old as [l|] eqn:Hold; unfold append_ref at 1; run_monad; simpl_world.
  - match goal with
    | |- context [_generate_with_provider ?c ctx ?w2] =>
        pose proof (generate_with_provider_same_processor c ctx w2) as Hsame;
        destruct (_generate_with_provider c ctx w2) as [[resp|e] w3]
    end; unfold same in Hsame; cbn [snd] in Hsame; simpl_world.
    + destruct (truthy resp) eqn:Htruthy.
      * destruct resp as [reply|]; [|discriminate].
        unfold append_ref, _update_conversation_history, read_ref. run_monad. simpl_world.
        rewrite Hsame. simpl_world.
        rewrite !lookup_alter_eq. fold old. rewrite Hold. cbn [fmap option_fmap option_map default from_option id].
        assert (Hne : reply <> "").
        { intros ->. discriminate. }
        assert (Happ : (l ++ [user_turn text asked]) ++ [assistant_turn reply (clock (events w3))]
                       = l ++ [user_turn text asked; assistant_turn reply (clock (events w3))]).
        { rewrite <- app_assoc. reflexivity. }
        unfold user_turn, assistant_turn, asked in Happ. rewrite Happ.
        destruct (max_history_length (processor w) <? _) eqn:Hcap;
          simpl_world; rewrite ?lookup_alter_eq; fold old; rewrite ?Hold;
          cbn [fmap option_fmap option_map default from_option id];
          rewrite ?Happ;
          (eexists _, _; split; [reflexivity|]; left; exists reply, (clock (events w3));
           split; [reflexivity|]; split; [exact Hne|]; split; [reflexivity|];
           unfold history; simpl_world; rewrite lookup_insert_eq;
           unfold capped, user_turn, assistant_turn, asked, cap; rewrite Hcap; reflexivity).
      * eexists _, _. split; [reflexivity|]. right. split; [reflexivity|].
        rewrite Hsame. simpl_world. split; [reflexivity|].
        rewrite (alter_lookup_insert _ _ _ l Hold). reflexivity.
    + eexists _, _. split; [reflexivity|]. right. split; [reflexivity|].
      simpl_world. rewrite Hsame. simpl_world. split; [reflexivity|].
      rewrite (alter_lookup_insert _ _ _ l Hold). reflexivity.
  - match goal with
    | |- context [_generate_with_provider ?c ctx ?w2] =>
        pose proof (generate_with_provider_same_processor c ctx w2) as Hsame;
        destruct (_generate_with_provider c ctx w2) as [[resp|e] w3]
    end; unfold same in Hsame; cbn [snd] in Hsame; simpl_world.
    + destruct (truthy resp) eqn:Htruthy.
      * destruct resp as [reply|]; [|discriminate].
        assert (Hne : reply <> "").
        { intros ->. discriminate. }
        unfold append_ref, _update_conversation_history, read_ref. run_monad. simpl_world.
        rewrite Hsame. simpl_world.
        cbn [fmap option_fmap option_map default from_option id app].
        destruct (max_history_length (processor w) <? _) eqn:Hcap;
          simpl_world;
          (eexists _, _; split; [reflexivity|]; left; exists reply, (clock (events w3));
           split; [reflexivity|]; split; [exact Hne|];
           simpl_world; rewrite ?Hsame; simpl_world; split; [reflexivity|];
           unfold history; simpl_world; rewrite lookup_insert_eq;
           unfold capped, user_turn, assistant_turn, asked, cap;
           cbn [app]; rewrite Hcap; reflexivity).
      * eexists _, _. split; [reflexivity|]. right. split; [reflexivity|].
        rewrite Hsame. simpl_world. split; reflexivity.
    + eexists _, _. split; [reflexivity|]. right. split; [reflexivity|].
      simpl_world. rewrite Hsame. simpl_world. split; reflexivity.
Qed.

(** Under a cap of at least one, [capped] keeps the last [cap] turns. *)
Lemma capped_drop (cap : Z) (l : list turn) :
  1 <= cap -> capped cap l = drop (length l - Z.to_nat cap) l.
Proof.
  intros Hcap. unfold capped, slice_from.
  destruct (Z.ltb_spec cap (Z.of_nat (length l))) as [Hlong|Hshort].
  - destruct (Z.ltb_spec (- cap) 0); [|lia]. f_equal. lia.
  - replace (length l - Z.to_nat cap)%nat with 0%nat by lia. reflexivity.
Qed.

Lemma capped_length (cap : Z) (l : list turn) :
  1 <= cap -> Z.of_nat (length (capped cap l)) <= cap.
Proof.
  intros Hcap. rewrite capped_drop by exact Hcap. rewrite length_drop. lia.
Qed.

(** Whatever the cap, what [capped] keeps is the end of the conversation:
    the turns dropped are the oldest, the others keep their order. *)
Lemma capped_suffix (cap : Z) (l : list turn) :
  exists dropped, l = dropped ++ capped cap l.
Proof.
  unfold capped, slice_from.
  destruct (cap <? Z.of_nat (length l)); [|exists []; reflexivity].
  destruct (- cap <? 0); eexists; symmetry; apply take_drop.
Qed.

Lemma capped_keeps_exchange (cap : Z) (l : list turn) (u a : turn) :
  2 <= cap -> exists older, capped cap (l ++ [u; a]) = older ++ [u; a].
Proof.
  intros Hcap. rewrite capped_drop by lia.
  rewrite length_app. cbn [length].
  exists (drop (length l + 2 - Z.to_nat cap) l).
  rewrite drop_app_le by lia. reflexivity.
Qed.

(** The dictionary that carries the context map of step 8 carries the
    cleaned content of that map as its content. *)
Lemma process_message_admit_content (m : message) (w w1 : world) (r : response_data)
    (g : bool) (s original cleaned : string) (stamped : Z) :
  process_message m w = (Ok r, w1) ->
  context r = Some (AdmitContext g s original cleaned stamped) ->
  content r = cleaned.
Proof.
  unfold process_message, process_message_body, rate_limit_and_respond, _process_command.
  run_monad. intros Hrun Hctx.
  repeat (case_match; simplify_eq); cbn in Hctx; simplify_eq; reflexivity.
Qed.

(** After a reply, with a cap of at least one, the stored history is not
    longer than the cap and is the end of the old history followed by the
    two new turns: the oldest turns went first, the order is kept. *)
Lemma successful_generation_capped (text : string) (ctx : option context_map)
    (sender : string) (w : world) (reply : string) :
  1 <= max_history_length (processor w) ->
  fst (generate_response text ctx sender w) = Ok (Some reply) ->
  exists l dropped answered,
    history (snd (generate_response text ctx sender w)) sender = Some l /\
    Z.of_nat (length l) <= max_history_length (processor w) /\
    default [] (history w sender)
      ++ [user_turn text (clock (events w)); assistant_turn reply answered]
    = dropped ++ l.
Proof.
  intros Hcap Hreply.
  destruct (generate_response_outcome text ctx sender w)
    as [(reply' & answered & Hfst & _ & _ & Hhist)|(Hfst & _)];
    rewrite Hreply in Hfst; [|discriminate].
  injection Hfst as <-.
  destruct (capped_suffix (max_history_length (processor w))
              (default [] (history w sender)
               ++ [user_turn text (clock (events w)); assistant_turn reply answered]))
    as [dropped Hdropped].
  eexists _, dropped, answered. split; [exact Hhist|].
  split; [apply capped_length; exact Hcap | exact Hdropped].
Qed.

(** When nothing is returned for a sender that has a stored history, the
    user turn is in the store all the same: [conversation] was the stored
    list itself. *)
Lemma failed_generation_appends_user_turn (text : string) (ctx : option context_map)
    (sender : string) (w : world) (l : list turn) :
  history w sender = Some l ->
  fst (generate_response text ctx sender w) = Ok None ->
  history (snd (generate_response text ctx sender w)) sender =
    Some (l ++ [user_turn text (clock (events w))]).
Proof.
  intros Hold Hnone.
  destruct (generate_response_outcome text ctx sender w)
    as [(reply' & answered & Hfst & _)|(_ & _ & Hstore)];
    [rewrite Hnone in Hfst; discriminate|].
  cbv zeta in Hstore. rewrite Hold in Hstore.
  unfold history at 1. rewrite Hstore. apply lookup_insert_eq.
Qed.

(** When nothing is returned for a sender without a stored history, the
    store is as it was. *)
Lemma failed_generation_new_sender (text : string) (ctx : option context_map)
    (sender : string) (w : world) :
  history w sender = None ->
  fst (generate_response text ctx sender w) = Ok None ->
  conversation_history (processor (snd (generate_response text ctx sender w))) =
    conversation_history (processor w).
Proof.
  intros Hold Hnone.
  destruct (generate_response_outcome text ctx sender w)
    as [(reply' & answered & Hfst & _)|(_ & _ & Hstore)];
    [rewrite Hnone in Hfst; discriminate|].
  cbv zeta in Hstore. rewrite Hold in Hstore. exact Hstore.
Qed.

(** C9, amended. For a message that step 8 admits, once the provider has
    given a reply and the cap of the history is at least two, the history
    of the sender ends with the user turn that holds the cleaned content
    and then the assistant turn that holds the reply. *)
Theorem admitted_exchange_ends_history (m : message) (w w1 w2 : world)
    (r : response_data) (g : bool) (s original cleaned : string) (stamped : Z)
    (reply : string) :
  2 <= max_history_length (processor w) ->
  process_message m w = (Ok r, w1) ->
  context r = Some (AdmitContext g s original cleaned stamped) ->
  generate_response (content r) (context r) (msg_from m) w1 = (Ok (Some reply), w2) ->
  exists l, history w2 (msg_from m) = Some l /\ ends_with_exchange l cleaned reply.
Proof.
  intros Hcap Hpm Hctx Hgen.
  rewrite (process_message_admit_content m w w1 r g s original cleaned stamped Hpm Hctx)
    in Hgen.
  pose proof (process_message_same_processor m w) as Hsame.
  unfold same in Hsame. rewrite Hpm in Hsame. cbn [snd] in Hsame.
  destruct (generate_response_outcome cleaned (context r) (msg_from m) w1)
    as [(reply' & answered & Hfst & _ & _ & Hhist)|(Hfst & _)];
    rewrite Hgen in *; cbn [fst snd] in *; [|discriminate].
  injection Hfst as <-.
  rewrite Hsame in Hhist.
  destruct (capped_keeps_exchange (max_history_length (processor w))
              (default [] (history w1 (msg_from m)))
              (user_turn cleaned (clock (events w1))) (assistant_turn reply answered) Hcap)
    as [older Holder].
  eexists. split; [exact Hhist|].
  exists older, (clock (events w1)), answered. exact Holder.
Qed.

(** ** Cleaning of the content *)

Lemma rstrip_cons_keep (c : ascii) (s : string) :
  rstrip s = s -> s <> EmptyString -> rstrip (String c s) = String c s.
Proof.
  intros Hfix Hne. cbn. rewrite Hfix. destruct s; [contradiction|reflexivity].
Qed.

Lemma rstrip_single (c : ascii) :
  is_space c = false -> rstrip (String c EmptyString) = String c EmptyString.
Proof. intros Hc. cbn. rewrite Hc. reflexivity. Qed.

(** A string that [rstrip] leaves alone is a character that is not white
    space, or a character before such a string. *)
Lemma rstrip_cons_fixed (c : ascii) (r : string) :
  rstrip (String c r) = String c r ->
  (r = EmptyString /\ is_space c = false) \/ (r <> EmptyString /\ rstrip r = r).
Proof.
  cbn. destruct (rstrip r) as [|y r'] eqn:Hr.
  - destruct (is_space c); [discriminate|]. intros [= <-]. left. split; reflexivity.
  - intros [= <-]. right. split; [discriminate|reflexivity].
Qed.

Lemma rstrip_idem (s : string) : rstrip (rstrip s) = rstrip s.
Proof.
  induction s as [|c r IH]; [reflexivity|]. cbn.
  destruct (rstrip r) as [|y r'] eqn:Hr.
  - destruct (is_space c) eqn:Hc; [reflexivity|]. apply rstrip_single, Hc.
  - apply rstrip_cons_keep; [exact IH|discriminate].
Qed.

(** What [lstrip] returns is empty or starts with a character that is not
    white space. *)
Lemma lstrip_head (s : string) :
  lstrip s = EmptyString \/
  exists c r, lstrip s = String c r /\ is_space c = false.
Proof.
  induction s as [|c r IH]; [left; reflexivity|]. cbn.
  destruct (is_space c) eqn:Hc; [exact IH|]. right. eauto.
Qed.

Lemma rstrip_keeps_head (c : ascii) (r : string) :
  is_space c = false -> exists r', rstrip (String c r) = String c r'.
Proof.
  intros Hc. cbn. destruct (rstrip r); [rewrite Hc|]; eauto.
Qed.

Lemma lstrip_strip (s : string) : lstrip (strip s) = strip s.
Proof.
  unfold strip. destruct (lstrip_head s) as [->|(c & r & -> & Hc)]; [reflexivity|].
  destruct (rstrip_keeps_head c r Hc) as [r' ->]. cbn. rewrite Hc. reflexivity.
Qed.

Lemma rstrip_strip (s : string) : rstrip (strip s) = strip s.
Proof. unfold strip. apply rstrip_idem. Qed.

Lemma strip_fixed (s : string) : lstrip s = s -> rstrip s = s -> strip s = s.
Proof. intros Hl Hr. unfold strip. rewrite Hl. exact Hr. Qed.

Lemma strip_idem (s : string) : strip (strip s) = strip s.
Proof. apply strip_fixed; [apply lstrip_strip | apply rstrip_strip]. Qed.

(** Collapsing what has been collapsed changes nothing. *)
Lemma collapse_from_collapse (s : string) (b b' : bool) :
  (b' = true -> b = true) ->
  collapse_from b' (collapse_from b s) = collapse_from b s.
Proof.
  revert b b'. induction s as [|c r IH]; intros b b' Hb; [reflexivity|]. cbn.
  destruct (is_space c) eqn:Hc.
  - destruct b.
    + apply IH. reflexivity.
    + destruct b'; [specialize (Hb eq_refl); discriminate|].
      cbn. f_equal. apply IH. reflexivity.
  - cbn. rewrite Hc. f_equal. apply IH. discriminate.
Qed.

Lemma collapse_from_nonempty (s : string) (b : bool) :
  rstrip s = s -> s <> EmptyString -> collapse_from b s <> EmptyString.
Proof.
  revert b. induction s as [|c r IH]; intros b Hfix Hne; [contradiction|].
  cbn. apply rstrip_cons_fixed in Hfix as [[-> Hc]|[Hr Hfix]].
  - rewrite Hc. discriminate.
  - destruct (is_space c); [destruct b|]; try discriminate. apply IH; assumption.
Qed.

Lemma rstrip_collapse_from (s : string) (b : bool) :
  rstrip s = s -> rstrip (collapse_from b s) = collapse_from b s.
Proof.
  revert b. induction s as [|c r IH]; intros b Hfix; [reflexivity|].
  apply rstrip_cons_fixed in Hfix as [[-> Hc]|[Hr Hfix]].
  - cbn. rewrite Hc. cbn. rewrite Hc. reflexivity.
  - cbn. destruct (is_space c); [destruct b|].
    + apply IH, Hfix.
    + apply rstrip_cons_keep; [apply IH, Hfix | apply collapse_from_nonempty; assumption].
    + apply rstrip_cons_keep; [apply IH, Hfix | apply collapse_from_nonempty; assumption].
Qed.

Lemma lstrip_collapse (s : string) :
  lstrip s = s -> lstrip (collapse_whitespace s) = collapse_whitespace s.
Proof.
  intros Hfix. destruct (lstrip_head s) as [Hnil|(c & r & Hcons & Hc)];
    rewrite Hfix in *; subst; [reflexivity|].
  unfold collapse_whitespace. cbn. rewrite Hc. cbn. rewrite Hc. reflexivity.
Qed.

(** The loop over the mention patterns ends with a [strip]. *)
Lemma strip_mentions_stripped (ps : list pattern) (x y : string) :
  strip x = x -> strip_mentions ps x = Ok y -> strip y = y.
Proof.
  revert x. induction ps as [|p rest IH]; intros x Hx; cbn.
  - intros [= <-]. exact Hx.
  - destruct (re_sub p x) as [c|e]; [|discriminate]. apply IH, strip_idem.
Qed.

Lemma strip_parts (s : string) : strip s = s -> lstrip s = s /\ rstrip s = s.
Proof.
  intros Hs. rewrite <- Hs. split; [apply lstrip_strip | apply rstrip_strip].
Qed.

(** X1. Whatever [_clean_message_content] returns, for a direct or a
    group message and whatever [re] does with the configured pattern, is
    trimmed and holds no white space but single blanks: [strip] and the
    collapse of white space leave it as it is, and cleaning it again as a
    direct message returns it unchanged. *)
Theorem cleaned_content_is_normalised (self : message_handler) (text : string)
    (group : bool) (cleaned : string) :
  _clean_message_content self text group = Ok cleaned ->
  strip cleaned = cleaned /\
  collapse_whitespace cleaned = cleaned /\
  _clean_message_content self cleaned false = Ok cleaned.
Proof.
  unfold _clean_message_content. intros Hclean.
  assert (Hpre : exists y, strip y = y /\ cleaned = collapse_whitespace y).
  { destruct group.
    - destruct (strip_mentions (mention_patterns self) (strip text)) as [y|e] eqn:Hy;
        [|discriminate].
      injection Hclean as <-. exists y. split; [|reflexivity].
      eapply strip_mentions_stripped; [apply strip_idem | exact Hy].
    - injection Hclean as <-. exists (strip text). split; [apply strip_idem|reflexivity]. }
  destruct Hpre as (y & Hy & ->).
  destruct (strip_parts y Hy) as [Hl Hr].
  assert (Hstrip : strip (collapse_whitespace y) = collapse_whitespace y).
  { apply strip_fixed; [apply lstrip_collapse, Hl|].
    unfold collapse_whitespace. apply rstrip_collapse_from, Hr. }
  assert (Hcollapse : collapse_whitespace (collapse_whitespace y) = collapse_whitespace y).
  { unfold collapse_whitespace. apply collapse_from_collapse. discriminate. }
  split; [exact Hstrip|]. split; [exact Hcollapse|].
  rewrite Hstrip, Hcollapse. reflexivity.
Qed.

(** ** Mentions and commands *)

Lemma first_command_listed (patterns : list (string * list string)) (s command : string) :
  first_command patterns s = Some command -> command ∈ map fst patterns.
Proof.
  induction patterns as [|[c alts] rest IH]; cbn; [discriminate|].
  destruct (match_alternatives alts s).
  - intros [= <-]. apply list_elem_of_here.
  - intros Hrest. apply list_elem_of_further, IH, Hrest.
Qed.

(** X3. What [_process_command] returns for a text it takes for a command
    is the canned result of one of the five commands: its response type
    is text, it is never the fall-back "Unknown command." of
    [_handle_command], the action [pause] comes with [stop] only, [resume]
    with [start] only and the clear-history tag with [clear] only; and the
    call leaves one line in the log and nothing else in the world. *)
Theorem command_result_is_canned (text sender : string) (w : world)
    (r : command_result) :
  fst (_process_command text sender w) = Ok (Some r) ->
  exists command,
    command ∈ ["help"; "status"; "clear"; "stop"; "start"] /\
    r = _handle_command command sender /\
    cr_content r <> "Unknown command." /\
    cr_response_type r = "text" /\
    (cr_action r = Some "pause" <-> command = "stop") /\
    (cr_action r = Some "resume" <-> command = "start") /\
    (cr_clear_history r = Some true <-> command = "clear") /\
    snd (_process_command text sender w) =
      with_logs (logs w ++ [(INFO, "Processing command: " +:+ command +:+ " from " +:+ sender)]) w.
Proof.
  unfold _process_command.
  destruct (first_command command_patterns (strip (lower text))) as [command|] eqn:Hfirst;
    [|discriminate].
  intros [= <-]. exists command.
  apply first_command_listed in Hfirst. cbn [map fst command_patterns] in Hfirst.
  split; [exact Hfirst|]. split; [reflexivity|].
  set_unfold in Hfirst.
  destruct Hfirst as [->|[->|[->|[->|[->|[]]]]]]; cbn;
    (split; [discriminate|]); (split; [reflexivity|]);
    repeat split; try discriminate; try reflexivity; intros [=].
Qed.

(** ** More on the rate limiter and the pipeline *)

Section Keeps.

Context (R : world -> world -> Prop) `{HL : !Ledger R}.

Local Set Default Proof Using "Type HL".

Lemma keeps_ret {A} (a : A) : respects R (ret a).
Proof. intros w. cbn. reflexivity. Qed.

Lemma keeps_raise {A} (e : exn) : respects R (@raise A e).
Proof. intros w. cbn. reflexivity. Qed.

Lemma keeps_lift {A} (r : result A) : respects R (lift r).
Proof. intros w. cbn. reflexivity. Qed.

Lemma keeps_get : respects R get.
Proof. intros w. cbn. reflexivity. Qed.

Lemma keeps_log (l : level) (text : string) : respects R (log l text).
Proof. intros w. cbn. apply ledger_logs. Qed.

Lemma keeps_now : respects R datetime_now.
Proof. intros w. cbn. apply ledger_events. Qed.

Lemma keeps_bind {A B} (c : M A) (k : A -> M B) :
  respects R c -> (forall a, respects R (k a)) -> respects R (bind c k).
Proof.
  intros Hc Hk w. unfold bind. specialize (Hc w).
  destruct (c w) as [[a|e] w1]; cbn in *; [|exact Hc].
  etransitivity; [exact Hc | apply Hk].
Qed.

Lemma keeps_try {A} (c : M A) (h : exn -> M A) :
  respects R c -> (forall e, respects R (h e)) -> respects R (try_except c h).
Proof.
  intros Hc Hh w. unfold try_except. specialize (Hc w).
  destruct (c w) as [[a|e] w1]; cbn in *; [exact Hc|].
  etransitivity; [exact Hc | apply Hh].
Qed.

Lemma keeps_process_command (text sender : string) :
  respects R (_process_command text sender).
Proof.
  unfold _process_command. destruct (first_command _ _).
  - apply keeps_bind; [apply keeps_log | intros _; apply keeps_ret].
  - apply keeps_ret.
Qed.

End Keeps.

Ltac keep :=
  repeat first
    [ match goal with |- Ledger _ => exact _ end
    | simple apply keeps_ret | simple apply keeps_raise
    | simple apply keeps_lift | simple apply keeps_get
    | simple apply keeps_log | simple apply keeps_now
    | simple apply keeps_process_command
    | simple apply keeps_bind | simple apply keeps_try
    | progress intros
    | case_match ].

Global Instance pipeline_step_ledger (sender : string) : Ledger (pipeline_step sender).
Proof.
  split; [split|..]; unfold pipeline_step.
  - intros w. repeat split; reflexivity.
  - intros a b c (H1 & H2 & H3 & H4 & H5 & H6) (K1 & K2 & K3 & K4 & K5 & K6).
    repeat split; try congruence.
    intros s Hs. rewrite K1, H1 by exact Hs. reflexivity.
  - intros w l. repeat split; reflexivity.
  - intros w n. repeat split; reflexivity.
Qed.

Lemma check_rate_limit_pipeline_step (sender : string) :
  respects (pipeline_step sender) (_check_rate_limit sender).
Proof.
  intros w. rewrite check_rate_limit_run. unfold pipeline_step.
  destruct (rate_limit_enabled (handler w)); [|repeat split; reflexivity].
  cbv zeta. case_match; cbn [snd]; unfold record_window; simpl_world;
    (split; [intros s Hs; rewrite lookup_insert_ne by congruence; reflexivity
            |repeat split; reflexivity]).
Qed.

Lemma process_message_pipeline_step (m : message) :
  respects (pipeline_step (msg_from m)) (process_message m).
Proof.
  unfold process_message, process_message_body, rate_limit_and_respond.
  keep; apply check_rate_limit_pipeline_step.
Qed.

(** X4. The window rolls: when the limiter is on, the cap is at least
    one and every stamp of the sender is an hour old or older, the check
    accepts and the window is the stamp of this check alone. *)
Theorem rate_limit_recovers_after_an_hour (sender : string) (w : world) :
  rate_limit_enabled (handler w) = true ->
  1 <= max_messages_per_hour (handler w) ->
  Forall (fun t => t <= clock (events w) - hour) (window w sender) ->
  _check_rate_limit sender w = (Ok true, record_window sender [clock (events w)] w).
Proof.
  intros Hon Hcap Hold. rewrite check_rate_limit_run, Hon. cbv zeta.
  assert (Hnone : filter (fun t => clock (events w) - hour < t) (window w sender) = []).
  { induction Hold as [|t l Ht _ IH]; [reflexivity|].
    rewrite filter_cons_False by (tidy; lia). exact IH. }
  rewrite Hnone. cbn [length app].
  destruct (Z.leb_spec (max_messages_per_hour (handler w)) (Z.of_nat 0));
    [tidy; lia | reflexivity].
Qed.

(** X5. A cap of zero or less closes the limiter: when it is on, every
    check rejects, whatever the window and the clock, and the window it
    leaves is the pruned one, without the stamp of the check. *)
Theorem rate_limit_closed_under_zero_cap (sender : string) (w : world) :
  rate_limit_enabled (handler w) = true ->
  max_messages_per_hour (handler w) <= 0 ->
  _check_rate_limit sender w =
    (Ok false,
     record_window sender
       (filter (fun t => clock (events w) - hour < t) (window w sender)) w).
Proof.
  intros Hon Hcap. rewrite check_rate_limit_run, Hon. cbv zeta.
  destruct (Z.leb_spec (max_messages_per_hour (handler w))
              (Z.of_nat (length (filter (fun t => clock (events w) - hour < t)
                                        (window w sender)))));
    [reflexivity | tidy; lia].
Qed.

(** X6. The processing of a message touches the rate-limit window of its
    sender and nothing else: the windows of the other senders, the
    contact lists and the settings of the handler, the conversation
    store, the client and what was handed to the network are after
    [process_message] what they were before, whatever the message and
    whether it faults or not. *)
Theorem process_message_touches_one_window (m : message) (w : world) :
  let after := snd (process_message m w) in
  (forall s, s <> msg_from m -> window after s = window w s) /\
  allowed_contacts (handler after) = allowed_contacts (handler w) /\
  blocked_contacts (handler after) = blocked_contacts (handler w) /\
  respond_to_groups (handler after) = respond_to_groups (handler w) /\
  require_mention (handler after) = require_mention (handler w) /\
  rate_limit_enabled (handler after) = rate_limit_enabled (handler w) /\
  max_messages_per_hour (handler after) = max_messages_per_hour (handler w) /\
  bot_name (handler after) = bot_name (handler w) /\
  processor after = processor w /\ client after = client w /\ outbox after = outbox w.
Proof.
  intros after.
  destruct (process_message_pipeline_step m w) as (Hothers & Hset & Hp & Hc & Ho & _).
  fold after in Hothers, Hset, Hp, Hc, Ho.
  split; [intros s Hs; unfold window; rewrite Hothers by exact Hs; reflexivity|].
  split; [exact (f_equal allowed_contacts Hset)|].
  split; [exact (f_equal blocked_contacts Hset)|].
  split; [exact (f_equal respond_to_groups Hset)|].
  split; [exact (f_equal require_mention Hset)|].
  split; [exact (f_equal rate_limit_enabled Hset)|].
  split; [exact (f_equal max_messages_per_hour Hset)|].
  split; [exact (f_equal bot_name Hset)|].
  split; [exact Hp|]. split; [exact Hc | exact Ho].
Qed.

(** ** Statistics and contact administration *)

Global Instance senders_kept_frame : Frame senders_kept.
Proof.
  split; [split|..]; unfold senders_kept.
  - intros w. reflexivity.
  - intros a b c Hab Hbc. etransitivity; eassumption.
  - reflexivity.
  - reflexivity.
  - reflexivity.
Qed.

Lemma same_handler_senders_kept (w w' : world) :
  handler w' = handler w -> senders_kept w w'.
Proof. intros Heq. unfold senders_kept. rewrite Heq. reflexivity. Qed.

Lemma check_rate_limit_senders_kept (sender : string) :
  respects senders_kept (_check_rate_limit sender).
Proof.
  intros w. rewrite check_rate_limit_run. unfold senders_kept.
  destruct (rate_limit_enabled (handler w)); [|reflexivity].
  cbv zeta. case_match; cbn [snd]; unfold record_window; simpl_world;
    apply dom_insert_subseteq.
Qed.

Lemma handle_message_senders_kept (m : message) :
  respects senders_kept (_handle_message m).
Proof.
  unfold _handle_message, process_message, process_message_body, rate_limit_and_respond.
  respect;
    first [ apply check_rate_limit_senders_kept
          | apply process_command_respects; exact _
          | eapply respects_weaken; [apply same_handler_senders_kept|];
            first [apply generate_response_same_handler | apply send_message_same_handler] ].
Qed.

Lemma handle_all_senders_kept (ms : list message) :
  respects senders_kept (handle_all ms).
Proof.
  induction ms as [|m rest IH]; cbn [handle_all].
  - apply respects_ret. exact _.
  - apply respects_bind; [exact _ | apply handle_message_senders_kept | intros _; exact IH].
Qed.

(** X7. The limiter never forgets a sender: however many messages the bot
    handles, every sender that had a window has one afterwards, and the
    count [rate_limited_contacts] of [get_stats] does not go down. *)
Theorem limiter_never_forgets_a_sender (ms : list message) (w : world) :
  let after := snd (handle_all ms w) in
  (forall sender l,
     message_timestamps (handler w) !! sender = Some l ->
     exists l', message_timestamps (handler after) !! sender = Some l') /\
  (stats_rate_limited_contacts (get_stats (handler w))
   <= stats_rate_limited_contacts (get_stats (handler after)))%nat.
Proof.
  intros after. pose proof (handle_all_senders_kept ms w) as Hkept.
  unfold senders_kept in Hkept. fold after in Hkept. split.
  - intros sender l Hl.
    assert (Hin : sender ∈ dom (message_timestamps (handler after))).
    { apply Hkept. apply elem_of_dom. eauto. }
    apply elem_of_dom in Hin. destruct Hin as [l' Hl']. eauto.
  - cbn. rewrite <- !size_dom. apply subseteq_size, Hkept.
Qed.

Lemma sum_of_bounded_lengths (cap : Z) (ls : list (list Z)) :
  Forall (fun l => Z.of_nat (length l) <= cap) ls ->
  Z.of_nat (sum_list (length <$> ls)) <= Z.of_nat (length ls) * cap.
Proof.
  induction 1 as [|l ls Hl _ IH]; cbn [fmap list_fmap sum_list sum_list_with length];
    [tidy; lia|].
  rewrite Nat2Z.inj_add, Nat2Z.inj_succ, Z.mul_succ_l, Z.add_comm.
  apply Z.add_le_mono; [exact IH | exact Hl].
Qed.

(** X8. In every world the bot can reach, with a cap that is not
    negative, the total of stamps that [get_stats] reports is at most the
    number of senders it reports times the cap. *)
Theorem stats_total_within_cap (w : world) :
  reachable w ->
  0 <= max_messages_per_hour (handler w) ->
  Z.of_nat (stats_total_message_history (get_stats (handler w)))
  <= Z.of_nat (stats_rate_limited_contacts (get_stats (handler w)))
     * max_messages_per_hour (handler w).
Proof.
  intros Hreach Hpos. destruct (reachable_limiter w Hreach) as [Hb _].
  specialize (Hb Hpos). cbn.
  rewrite <- length_map_to_list, <- (length_fmap snd).
  apply sum_of_bounded_lengths, Forall_forall. intros l Hl.
  apply list_elem_of_fmap in Hl as ([s l'] & -> & Hin).
  apply elem_of_map_to_list in Hin. exact (Hb s l' Hin).
Qed.

(** A message of a blocked sender is rejected and the handler is left as
    it is. *)
Lemma blocked_sender_rejected (m : message) (w : world) :
  msg_from m ∈ blocked_contacts (handler w) ->
  exists r w',
    process_message m w = (Ok r, w') /\
    should_respond r = false /\ handler w' = handler w.
Proof.
  intros Hblocked.
  unfold process_message, process_message_body. run_monad.
  destruct (body_strip (msg_body m)) as [text|e].
  2:{ eexists _, _. split; [reflexivity|]. split; reflexivity. }
  simpl_world. destruct (negb _).
  { eexists _, _. split; [reflexivity|]. split; reflexivity. }
  simpl_world. unfold _is_blocked_contact.
  rewrite bool_decide_eq_true_2 by exact Hblocked.
  eexists _, _. split; [reflexivity|]. split; reflexivity.
Qed.

(** X10. Blocking takes effect at once: after [add_blocked_contact], every
    message of that contact is answered with [should_respond] false, and
    it takes no slot of the contact's window. *)
Theorem blocking_takes_effect (contact : string) (m : message) (w : world) :
  msg_from m = contact ->
  exists r w',
    process_message m (snd (add_blocked_contact contact w)) = (Ok r, w') /\
    should_respond r = false /\
    window w' contact = window w contact.
Proof.
  intros Hfrom.
  destruct (blocked_sender_rejected m (snd (add_blocked_contact contact w)))
    as (r & w' & Hrun & Hresp & Hsame).
  { rewrite Hfrom. cbn. apply elem_of_union_l, elem_of_singleton. reflexivity. }
  exists r, w'. split; [exact Hrun|]. split; [exact Hresp|].
  unfold window. rewrite Hsame. reflexivity.
Qed.

(** X11. Unblocking undoes blocking: for a contact that was not blocked,
    [remove_blocked_contact] after [add_blocked_contact] gives the handler
    back as it was; unblocking a contact that is not blocked changes
    nothing (no error); after unblocking the contact passes the block
    test; and blocking twice is blocking once. *)
Theorem unblocking_undoes_blocking (contact : string) (w : world) :
  (contact ∉ blocked_contacts (handler w) ->
   handler (snd (remove_blocked_contact contact (snd (add_blocked_contact contact w))))
     = handler w /\
   handler (snd (remove_blocked_contact contact w)) = handler w) /\
  _is_blocked_contact (handler (snd (remove_blocked_contact contact w))) contact = false /\
  _is_blocked_contact (handler (snd (add_blocked_contact contact w))) contact = true /\
  handler (snd (add_blocked_contact contact (snd (add_blocked_contact contact w))))
    = handler (snd (add_blocked_contact contact w)).
Proof.
  split; [intros Hfree; split|split; [|split]]; cbn; destruct (handler w) as [al bl g mn en cap ts nm];
    cbn in *; unfold _is_blocked_contact; cbn.
  - f_equal. apply set_eq. intros x. tidy. set_unfold. naive_solver.
  - f_equal. apply set_eq. intros x. tidy. set_unfold. naive_solver.
  - apply bool_decide_eq_false_2. tidy. set_unfold. naive_solver.
  - apply bool_decide_eq_true_2. tidy. set_unfold. naive_solver.
  - f_equal. apply set_eq. intros x. tidy. set_unfold. naive_solver.
Qed.

(** X9. Every message that [process_message] responds to has gone
    through the limiter, commands included: when the limiter is on and the
    result has [should_respond] true, either the window of the sender,
    pruned at the time of the check, had reached the cap, it is left
    pruned and the content is the rate-limit notice; or it had room and
    is left pruned with the stamp of the check appended. *)
Theorem responded_message_ran_the_limiter (m : message) (w w' : world)
    (r : response_data) :
  process_message m w = (Ok r, w') ->
  should_respond r = true ->
  rate_limit_enabled (handler w) = true ->
  let now := clock (S (events w)) in
  let kept := filter (fun t => now - hour < t) (window w (msg_from m)) in
  (max_messages_per_hour (handler w) <= Z.of_nat (length kept) /\
   window w' (msg_from m) = kept /\ content r = rate_limit_notice) \/
  (Z.of_nat (length kept) < max_messages_per_hour (handler w) /\
   window w' (msg_from m) = kept ++ [now]).
Proof.
  unfold process_message, process_message_body, rate_limit_and_respond, _process_command.
  run_monad. intros Hrun Hresp Hon.
  repeat (case_match; simplify_eq); try discriminate Hresp.
  all:
    match goal with
    | H : _check_rate_limit _ _ = _ |- _ =>
        rewrite check_rate_limit_run in H; unfold window, record_window in *;
        cbn [handler events with_handler with_logs with_events message_timestamps
             with_timestamps rate_limit_enabled max_messages_per_hour] in *;
        rewrite Hon in H; cbv zeta in H;
        match type of H with
        | context [Z.leb ?a ?b] => destruct (Z.leb_spec a b)
        end;
        simplify_eq
    end.
  all: try discriminate.
  all: cbn [handler events with_handler with_logs with_events message_timestamps
             with_timestamps content set_content set_should_respond].
  all: rewrite lookup_insert_eq.
  all: first [ left; split; [assumption|split; reflexivity]
             | right; split; [assumption|reflexivity] ].
Qed.

(** ** The conversation store, sender by sender *)

Global Instance generation_step_ledger (sender : string) : Ledger (generation_step sender).
Proof.
  split; [split|..]; unfold generation_step.
  - intros w. repeat split; reflexivity.
  - intros a b c (H1 & H2 & H3 & H4 & H5 & H6) (K1 & K2 & K3 & K4 & K5 & K6).
    repeat split; try congruence.
    intros s Hs. rewrite K1, H1 by exact Hs. reflexivity.
  - intros w l. repeat split; reflexivity.
  - intros w n. repeat split; reflexivity.
Qed.

(** The rule of [bind] when the continuation needs to know something of
    the value it receives. *)
Lemma keeps_bind_post (R : world -> world -> Prop) `{!Ledger R} {A B}
    (P : A -> Prop) (c : M A) (k : A -> M B) :
  respects R c ->
  (forall w a w', c w = (Ok a, w') -> P a) ->
  (forall a, P a -> respects R (k a)) ->
  respects R (bind c k).
Proof.
  intros Hc Hpost Hk w. unfold bind. specialize (Hc w). specialize (Hpost w).
  destruct (c w) as [[a|e] w1]; cbn in *; [|exact Hc].
  etransitivity; [exact Hc | apply Hk, (Hpost a w1), eq_refl].
Qed.

Lemma keeps_read_ref (R : world -> world -> Prop) `{!Ledger R} (c : conversation_ref) :
  respects R (read_ref c).
Proof. destruct c; intros w; cbn; reflexivity. Qed.

Lemma append_ref_generation_step (sender : string) (c : conversation_ref) (t : turn) :
  ref_of sender c -> respects (generation_step sender) (append_ref c t).
Proof.
  destruct c as [s|l]; cbn [ref_of]; intros Hc; unfold append_ref; [subst s|keep].
  keep. apply respects_modify. intros w. unfold generation_step, history. simpl_world.
  split; [intros s Hs; rewrite lookup_alter_ne by congruence; reflexivity|].
  repeat split; reflexivity.
Qed.

Lemma append_ref_ref_of (sender : string) (c c' : conversation_ref) (t : turn)
    (w w' : world) :
  ref_of sender c -> append_ref c t w = (Ok c', w') -> ref_of sender c'.
Proof.
  destruct c as [s|l]; unfold append_ref, ref_of; run_monad; intros Hc Hrun;
    simplify_eq; exact I || reflexivity.
Qed.

Lemma update_history_generation_step (sender : string) (c : conversation_ref) :
  respects (generation_step sender) (_update_conversation_history sender c).
Proof.
  unfold _update_conversation_history.
  keep; first [apply keeps_read_ref; exact _ | apply respects_modify].
  all: intros w0; unfold generation_step, history; simpl_world;
    (split; [intros s Hs; rewrite lookup_insert_ne by congruence; reflexivity|]);
    repeat split; reflexivity.
Qed.

Lemma generate_with_provider_generation_step (sender : string) (c : conversation_ref)
    (ctx : option context_map) :
  respects (generation_step sender) (_generate_with_provider c ctx).
Proof.
  unfold _generate_with_provider, _generate_with_openai, _generate_with_anthropic,
    _generate_with_local_model.
  keep; first [apply keeps_read_ref; exact _ | apply respects_modify; intros w0; apply ledger_events].
Qed.

Lemma generate_response_generation_step (text : string) (ctx : option context_map)
    (sender : string) :
  respects (generation_step sender) (generate_response text ctx sender).
Proof.
  unfold generate_response, generate_response_body.
  apply keeps_try; [exact _| |keep].
  apply keeps_bind; [exact _|keep|intros _].
  apply (keeps_bind_post _ (ref_of sender)).
  { unfold _get_conversation_history. keep. }
  { intros w a w'. unfold _get_conversation_history. run_monad. intros Hrun.
    simplify_eq. destruct (conversation_history (processor w') !! sender); cbn; reflexivity. }
  intros c Hc. apply keeps_bind; [exact _|keep|intros asked].
  apply (keeps_bind_post _ (ref_of sender)).
  { apply append_ref_generation_step, Hc. }
  { intros w a w'. apply append_ref_ref_of, Hc. }
  intros c' Hc'. apply keeps_bind; [exact _|apply generate_with_provider_generation_step|].
  intros response. destruct (truthy response); [|keep].
  apply keeps_bind; [exact _|keep|intros answered].
  apply keeps_bind; [exact _|apply append_ref_generation_step, Hc'|intros c''].
  apply keeps_bind; [exact _|apply update_history_generation_step|keep].
Qed.

(** X12. The generation of a reply touches the conversation of its sender
    and nothing else: the conversations of the other senders, the
    provider, the system prompt and the cap of the processor, the
    handler with its rate-limit windows, the client and what was handed
    to the network are after [generate_response] what they were before,
    whether the provider answers, fails or is unknown. *)
Theorem generate_response_touches_one_history (text : string)
    (ctx : option context_map) (sender : string) (w : world) :
  let after := snd (generate_response text ctx sender w) in
  (forall s, s <> sender -> history after s = history w s) /\
  provider (processor after) = provider (processor w) /\
  system_prompt (processor after) = system_prompt (processor w) /\
  max_history_length (processor after) = max_history_length (processor w) /\
  handler after = handler w /\ client after = client w /\ outbox after = outbox w.
Proof.
  intros after.
  destruct (generate_response_generation_step text ctx sender w)
    as (Hothers & Hset & Hh & Hc & Ho & _).
  fold after in Hothers, Hset, Hh, Hc, Ho.
  split; [exact Hothers|].
  split; [exact (f_equal provider Hset)|].
  split; [exact (f_equal system_prompt Hset)|].
  split; [exact (f_equal max_history_length Hset)|].
  split; [exact Hh|]. split; [exact Hc | exact Ho].
Qed.

Lemma capped_last (cap : Z) (l : list turn) (x : turn) :
  1 <= cap -> last (capped cap (l ++ [x])) = Some x.
Proof.
  intros Hcap. rewrite capped_drop by exact Hcap.
  rewrite length_app. cbn [length].
  rewrite drop_app_le by (tidy; lia). apply last_snoc.
Qed.

(** X13. Under a cap of at least one, a reply that [generate_response]
    returns is the last turn it stores: the stored conversation of the
    sender is within the cap, it is the end of the old conversation
    followed by the question and the reply, and its last turn is the
    reply of the assistant. *)
Theorem successful_reply_is_stored_last (text : string) (ctx : option context_map)
    (sender : string) (w : world) (reply : string) :
  1 <= max_history_length (processor w) ->
  fst (generate_response text ctx sender w) = Ok (Some reply) ->
  exists l dropped answered,
    history (snd (generate_response text ctx sender w)) sender = Some l /\
    Z.of_nat (length l) <= max_history_length (processor w) /\
    default [] (history w sender)
      ++ [user_turn text (clock (events w)); assistant_turn reply answered]
    = dropped ++ l /\
    last l = Some (assistant_turn reply answered).
Proof.
  intros Hcap Hreply.
  destruct (generate_response_outcome text ctx sender w)
    as [(reply' & answered & Hfst & _ & _ & Hhist) | (Hfst & _)];
    [|rewrite Hfst in Hreply; discriminate].
  rewrite Hfst in Hreply. injection Hreply as ->.
  destruct (capped_suffix (max_history_length (processor w))
              (default [] (history w sender)
                 ++ [user_turn text (clock (events w)); assistant_turn reply answered]))
    as [dropped Hdropped].
  eexists _, dropped, answered. split; [exact Hhist|].
  split; [apply capped_length, Hcap|]. split; [exact Hdropped|].
  replace (default [] (history w sender)
             ++ [user_turn text (clock (events w)); assistant_turn reply answered])
    with ((default [] (history w sender) ++ [user_turn text (clock (events w))])
            ++ [assistant_turn reply answered])
    by (rewrite <- app_assoc; reflexivity).
  apply capped_last, Hcap.
Qed.

Lemma clear_conversation_history_run (sender : string) (w : world) :
  let cleared := snd (clear_conversation_history (Some sender) w) in
  history cleared sender = None /\
  (sender <> "" -> forall s, s <> sender -> history cleared s = history w s) /\
  (sender = "" -> conversation_history (processor cleared) = ∅) /\
  max_history_length (processor cleared) = max_history_length (processor w) /\
  events cleared = events w.
Proof.
  unfold clear_conversation_history, truthy, history.
  destruct (String.eqb_spec sender "") as [->|Hne]; cbn [negb]; run_monad; simpl_world.
  - split; [apply lookup_empty|]. split; [intros Hne; contradiction|].
    split; [reflexivity|]. split; reflexivity.
  - split; [apply lookup_delete_eq|]. split.
    + intros _ s Hs. apply lookup_delete_ne. intros Heq. apply Hs. symmetry. exact Heq.
    + split; [intros He; contradiction|]. split; reflexivity.
Qed.

(** X14. Clearing and then asking starts afresh.  After
    [clear_conversation_history(sender)] the sender has no stored
    conversation; a call of [generate_response] that then returns a reply
    stores, under a cap of at least two, exactly the question and the
    reply; one that returns nothing stores nothing for the sender; and
    in both cases the conversations of the other senders are what they
    were before the clearing when [sender] is not the empty string, and
    are all gone when it is. *)
Theorem clear_then_generate_starts_afresh (text : string) (ctx : option context_map)
    (sender : string) (w : world) :
  let cleared := snd (clear_conversation_history (Some sender) w) in
  let out := generate_response text ctx sender cleared in
  2 <= max_history_length (processor w) ->
  history cleared sender = None /\
  (forall reply, fst out = Ok (Some reply) ->
     exists answered,
       history (snd out) sender =
         Some [user_turn text (clock (events w)); assistant_turn reply answered]) /\
  (fst out = Ok None -> history (snd out) sender = None) /\
  (sender <> "" -> forall s, s <> sender -> history (snd out) s = history w s) /\
  (sender = "" -> forall s, s <> sender -> history (snd out) s = None).
Proof.
  intros cleared out Hcap.
  destruct (clear_conversation_history_run sender w)
    as (Hnone & Hothers & Hall & Hsame & Hevents).
  fold cleared in Hnone, Hothers, Hall, Hsame, Hevents.
  destruct (generate_response_generation_step text ctx sender cleared) as (Hkeep & _).
  fold out in Hkeep.
  split; [exact Hnone|]. split; [|split; [|split]].
  - intros reply Hreply.
    destruct (generate_response_outcome text ctx sender cleared)
      as [(reply' & answered & Hfst & _ & _ & Hhist) | (Hfst & _)];
      fold out in Hfst; rewrite Hfst in Hreply; [|discriminate].
    injection Hreply as ->. exists answered. fold out in Hhist.
    rewrite Hhist, Hnone, Hsame, Hevents. cbn [default from_option id app].
    unfold capped. cbn [length].
    destruct (Z.ltb_spec (max_history_length (processor w)) (Z.of_nat 2));
      [tidy; lia | reflexivity].
  - intros Hfail. unfold history, out.
    rewrite (failed_generation_new_sender text ctx sender cleared Hnone Hfail).
    exact Hnone.
  - intros Hne s Hs. rewrite Hkeep by exact Hs. apply Hothers; assumption.
  - intros He s Hs. rewrite Hkeep by exact Hs. unfold history.
    rewrite (Hall He). apply lookup_empty.
Qed.

(** ** The client and the bot *)

Lemma send_message_run (to text : string) (w : world) :
  exists w',
    send_message to text w = (Ok (can_send w), w') /\
    outbox w' = outbox w ++ (if can_send w then [(to, text)] else []) /\
    handler w' = handler w /\ processor w' = processor w /\ client w' = client w /\
    send_error_notifications w' = send_error_notifications w.
Proof.
  unfold send_message, _send_message_via, can_send, known_client_type.
  run_monad. simpl_world.
  destruct (is_connected_flag (client w)); cbn [negb andb].
  2:{ eexists. split; [reflexivity|]. simpl_world. rewrite app_nil_r.
      split; [reflexivity|]. split; [reflexivity|]. split; [reflexivity|].
      split; reflexivity. }
  destruct (String.eqb (client_type (client w)) "web"); cbn [orb].
  { eexists. split; [reflexivity|]. simpl_world.
    split; [reflexivity|]. split; [reflexivity|]. split; [reflexivity|].
    split; reflexivity. }
  destruct (String.eqb (client_type (client w)) "business_api"); cbn [orb].
  { eexists. split; [reflexivity|]. simpl_world.
    split; [reflexivity|]. split; [reflexivity|]. split; [reflexivity|].
    split; reflexivity. }
  destruct (String.eqb (client_type (client w)) "unofficial"); cbn [orb].
  { eexists. split; [reflexivity|]. simpl_world.
    split; [reflexivity|]. split; [reflexivity|]. split; [reflexivity|].
    split; reflexivity. }
  eexists. split; [reflexivity|]. simpl_world. rewrite app_nil_r.
  split; [reflexivity|]. split; [reflexivity|]. split; [reflexivity|].
  split; reflexivity.
Qed.

Lemma handle_message_run (m : message) (w : world) :
  exists w',
    _handle_message m w = (Ok tt, w') /\
    client w' = client w /\
    send_error_notifications w' = send_error_notifications w /\
    (outbox w' = outbox w \/
     (can_send w = true /\ exists text, outbox w' = outbox w ++ [(msg_from m, text)])).
Proof.
  assert (Hcan : forall w1, client w1 = client w -> can_send w1 = can_send w).
  { intros w1 Hc. unfold can_send. rewrite Hc. reflexivity. }
  unfold _handle_message. run_monad.
  destruct (body_preview (msg_body m)) as [preview|e].
  - match goal with
    | |- context [process_message m ?w1] =>
        destruct (process_message_returns m w1) as (r & w2 & Hpm);
        pose proof (process_message_pipeline_step m w1) as Hstep;
        rewrite Hpm in Hstep |- *; cbn [snd] in Hstep;
        destruct Hstep as (_ & _ & _ & Hc2 & Ho2 & Hn2)
    end.
    cbn [client outbox send_error_notifications with_logs] in Hc2, Ho2, Hn2.
    destruct (should_respond r).
    2:{ eexists. split; [reflexivity|]. split; [exact Hc2|]. split; [exact Hn2|].
        left. exact Ho2. }
    destruct (generate_response_returns (content r) (context r) (msg_from m) w2)
      as (resp & w3 & Hgen).
    pose proof (generate_response_generation_step (content r) (context r) (msg_from m) w2)
      as Hg.
    rewrite Hgen in Hg |- *. cbn [snd] in Hg.
    destruct Hg as (_ & _ & _ & Hc3 & Ho3 & Hn3).
    destruct (truthy resp).
    2:{ eexists. split; [reflexivity|]. split; [congruence|]. split; [congruence|].
        left. congruence. }
    destruct (send_message_run (msg_from m) (default "" resp) w3)
      as (w4 & Hsend & Ho4 & _ & _ & Hc4 & Hn4).
    rewrite Hsend. eexists. split; [reflexivity|]. simpl_world.
    split; [congruence|]. split; [congruence|].
    rewrite (Hcan w3) in Ho4 by congruence.
    destruct (can_send w).
    + right. split; [reflexivity|]. exists (default "" resp). congruence.
    + left. rewrite Ho4, app_nil_r. congruence.
  - simpl_world. destruct (send_error_notifications w) eqn:Hn.
    2:{ eexists. split; [reflexivity|]. split; [reflexivity|].
        split; [simpl_world; exact Hn|]. left. reflexivity. }
    match goal with
    | |- context [send_message ?to ?text ?w1] =>
        destruct (send_message_run to text w1) as (w4 & Hsend & Ho4 & _ & _ & Hc4 & Hn4)
    end.
    rewrite Hsend. cbn [client outbox send_error_notifications with_logs] in Hc4, Ho4, Hn4.
    eexists. split; [reflexivity|]. split; [exact Hc4|]. split; [congruence|].
    match type of Ho4 with
    | context [can_send ?w1] => rewrite (Hcan w1 eq_refl) in Ho4
    end.
    destruct (can_send w).
    + right. split; [reflexivity|]. eexists. exact Ho4.
    + left. rewrite Ho4, app_nil_r. reflexivity.
Qed.

Lemma handle_all_run (ms : list message) (w : world) :
  exists w' sent,
    handle_all ms w = (Ok tt, w') /\
    client w' = client w /\
    outbox w' = outbox w ++ sent /\
    (length sent <= length ms)%nat /\
    (can_send w = false -> sent = []) /\
    Forall (fun p => fst p ∈ map msg_from ms) sent.
Proof.
  revert w. induction ms as [|m rest IH]; intros w; cbn [handle_all].
  - exists w, []. split; [reflexivity|]. split; [reflexivity|].
    split; [symmetry; apply app_nil_r|]. split; [reflexivity|].
    split; [reflexivity | constructor].
  - unfold bind.
    destruct (handle_message_run m w) as (w1 & Hrun & Hc1 & _ & Hsent).
    rewrite Hrun.
    destruct (IH w1) as (w2 & sent & Hrest & Hc2 & Ho2 & Hlen & Hoff & Hto).
    assert (Hcan : can_send w1 = can_send w) by (unfold can_send; rewrite Hc1; reflexivity).
    assert (Hto' : Forall (fun p => fst p ∈ map msg_from (m :: rest)) sent).
    { eapply Forall_impl; [exact Hto|]. intros p Hp. cbn [map]. right. exact Hp. }
    rewrite Hrest. destruct Hsent as [Hsame | (Hon & text & Hone)].
    + exists w2, sent. split; [reflexivity|]. split; [congruence|].
      split; [congruence|]. split; [cbn [length]; tidy; lia|].
      split; [intros Hno; apply Hoff; congruence | exact Hto'].
    + exists w2, ((msg_from m, text) :: sent). split; [reflexivity|]. split; [congruence|].
      split; [rewrite Ho2, Hone, <- app_assoc; reflexivity|].
      split; [cbn [length]; tidy; lia|].
      split; [intros Hno; congruence|].
      constructor; [cbn [fst map]; left | exact Hto'].
Qed.

(** X17. [send_message] never raises.  It returns [True] exactly when the
    client is connected and its type is one of ['web'], ['business_api']
    and ['unofficial'], and then hands exactly the one message to the
    network; otherwise it hands over nothing.  The handler, the
    processor and the client are left as they were. *)
Theorem send_message_delivers_when_it_can (to text : string) (w : world) :
  exists w',
    send_message to text w = (Ok (can_send w), w') /\
    outbox w' = outbox w ++ (if can_send w then [(to, text)] else []) /\
    handler w' = handler w /\ processor w' = processor w /\ client w' = client w.
Proof.
  destruct (send_message_run to text w) as (w' & Hrun & Ho & Hh & Hp & Hc & _).
  exists w'. split; [exact Hrun|]. split; [exact Ho|]. split; [exact Hh|].
  split; [exact Hp | exact Hc].
Qed.

(** X18. After [disconnect] nothing is delivered: [is_connected] answers
    [False], and whatever messages the bot then handles, what was handed
    to the network stays what it was. *)
Theorem nothing_is_delivered_after_disconnect (ms : list message) (w : world) :
  let off := snd (disconnect w) in
  fst (is_connected off) = Ok false /\
  outbox (snd (handle_all ms off)) = outbox w.
Proof.
  intros off. split; [reflexivity|].
  destruct (handle_all_run ms off) as (w' & sent & Hrun & _ & Ho & _ & Hoff & _).
  rewrite Hrun. cbn [snd]. rewrite Ho, (Hoff eq_refl), app_nil_r. reflexivity.
Qed.

(** X19. The bot sends at most one message for each message it handles,
    and only to the senders of these messages: after [handle_all ms] what
    was handed to the network is what was there before, followed by at
    most [length ms] messages, each addressed to the sender of one of
    [ms].  The bot never raises. *)
Theorem at_most_one_reply_per_message (ms : list message) (w : world) :
  exists w' sent,
    handle_all ms w = (Ok tt, w') /\
    outbox w' = outbox w ++ sent /\
    (length sent <= length ms)%nat /\
    Forall (fun p => fst p ∈ map msg_from ms) sent.
Proof.
  destruct (handle_all_run ms w) as (w' & sent & Hrun & _ & Ho & Hlen & _ & Hto).
  exists w', sent. split; [exact Hrun|]. split; [exact Ho|].
  split; [exact Hlen | exact Hto].
Qed.

(** X20. A message whose body is [None] never reaches the pipeline of the
    bot: the slice in the first log line raises, so neither the handler
    (no rate-limit stamp) nor the processor (no history) changes, and
    the only message sent is the error notification, when the bot is
    configured to send it and the client can send. *)
Theorem unreadable_body_skips_the_pipeline (m : message) (w : world) :
  msg_body m = PyNone ->
  let after := snd (_handle_message m w) in
  handler after = handler w /\ processor after = processor w /\
  outbox after =
    outbox w ++ (if send_error_notifications w && can_send w
                 then [(msg_from m, error_notification)] else []).
Proof.
  intros Hbody. unfold _handle_message. rewrite Hbody. cbn [body_preview].
  run_monad. simpl_world.
  destruct (send_error_notifications w); cbn [andb].
  2:{ simpl_world. rewrite app_nil_r. split; [reflexivity|]. split; reflexivity. }
  match goal with
  | |- context [send_message ?to ?text ?w1] =>
      destruct (send_message_run to text w1) as (w4 & Hsend & Ho4 & Hh4 & Hp4 & _)
  end.
  rewrite Hsend. cbn [snd]. split; [exact Hh4|]. split; [exact Hp4|]. exact Ho4.
Qed.

(** X21. A blocked sender gets no reply from the bot: when the sender is
    on the block list and the body is not [None], [_handle_message]
    hands nothing to the network and changes neither the handler nor the
    processor. *)
Theorem blocked_sender_gets_no_reply (m : message) (w : world) :
  msg_from m ∈ blocked_contacts (handler w) ->
  msg_body m <> PyNone ->
  let after := snd (_handle_message m w) in
  outbox after = outbox w /\ handler after = handler w /\ processor after = processor w.
Proof.
  intros Hblocked Hbody. unfold _handle_message. run_monad.
  destruct (body_preview (msg_body m)) as [preview|e] eqn:Hpreview.
  2:{ destruct (msg_body m); cbn in Hpreview; try discriminate. contradiction. }
  match goal with
  | |- context [process_message m ?w1] =>
      destruct (blocked_sender_rejected m w1 Hblocked) as (r & w2 & Hpm & Hresp & Hh2);
      pose proof (process_message_pipeline_step m w1) as Hstep;
      rewrite Hpm in Hstep |- *; cbn [snd] in Hstep;
      destruct Hstep as (_ & _ & Hp2 & _ & Ho2 & _)
  end.
  rewrite Hresp. cbn [snd]. split; [exact Ho2|]. split; [exact Hh2 | exact Hp2].
Qed.

(** ** The bot when the API is down *)

Lemma failing_api_gives_none (text : string) (ctx : option context_map)
    (sender : string) (w : world) :
  (forall n messages, exists e, acreate n messages = Raise e) ->
  String.eqb (default "openai" (provider (processor w))) "openai" = true ->
  fst (generate_response text ctx sender w) = Ok None.
Proof.
  intros Hfail Hprov.
  unfold generate_response, generate_response_body, _get_conversation_history.
  run_monad. simpl_world.
  destruct (conversation_history (processor w) !! sender) as [l|];
    unfold append_ref, _generate_with_provider; run_monad; simpl_world;
    rewrite Hprov; unfold _generate_with_openai, read_ref; run_monad; simpl_world;
    (match goal with
     | |- context [acreate ?n ?msgs] => destruct (Hfail n msgs) as [e ->]
     end);
    reflexivity.
Qed.

(** X22. A failure of the completion API is silent.  When every call of
    the API fails and the provider is ['openai'] (or not configured), a
    message whose body is not [None] gets no answer at all: the failure
    is caught inside the processor, no exception reaches the bot, and
    neither a reply nor the error notification is sent, whatever
    [send_error_notifications] says. *)
Theorem api_failure_is_silent (m : message) (w : world) :
  (forall n messages, exists e, acreate n messages = Raise e) ->
  String.eqb (default "openai" (provider (processor w))) "openai" = true ->
  msg_body m <> PyNone ->
  exists w',
    _handle_message m w = (Ok tt, w') /\ outbox w' = outbox w.
Proof.
  intros Hfail Hprov Hbody. unfold _handle_message. run_monad.
  destruct (body_preview (msg_body m)) as [preview|e] eqn:Hpreview.
  2:{ destruct (msg_body m); cbn in Hpreview; try discriminate. contradiction. }
  match goal with
  | |- context [process_message m ?w1] =>
      destruct (process_message_returns m w1) as (r & w2 & Hpm);
      pose proof (process_message_pipeline_step m w1) as Hstep;
      rewrite Hpm in Hstep |- *; cbn [snd] in Hstep;
      destruct Hstep as (_ & _ & Hp2 & _ & Ho2 & _)
  end.
  cbn [processor outbox with_logs] in Hp2, Ho2.
  destruct (should_respond r).
  2:{ eexists. split; [reflexivity | exact Ho2]. }
  destruct (generate_response_returns (content r) (context r) (msg_from m) w2)
    as (resp & w3 & Hgen).
  pose proof (generate_response_generation_step (content r) (context r) (msg_from m) w2)
    as Hg.
  pose proof (failing_api_gives_none (content r) (context r) (msg_from m) w2 Hfail) as Hnone.
  rewrite Hp2 in Hnone. specialize (Hnone Hprov).
  rewrite Hgen in Hg, Hnone |- *. cbn [fst snd] in Hg, Hnone.
  destruct Hg as (_ & _ & _ & _ & Ho3 & _).
  injection Hnone as ->. cbn [truthy].
  eexists. split; [reflexivity | congruence].
Qed.

End Program.

(* ===================================================================== *)
(** * The program on concrete inputs                                      *)
(* ===================================================================== *)

(** C2, the code at the failing input. ["A"] sends 31 plain messages
    within 31 * 6 microseconds to a bot with the default configuration and
    a completion API that always answers.  The first 30 messages fill the
    window.  For the 31st, [process_message] returns the rate-limit
    notice with [should_respond] true, and [_handle_message] hands that
    notice to [generate_response] as if ["A"] had written it: what is sent
    to ["A"] is the reply of the API, and the history of ["A"] ends with a
    user turn that holds the notice and the assistant turn that answers
    it. *)
Theorem rate_limit_notice_is_sent_to_backend :
  let handle := handle_all tick_clock stub_backend literal_search literal_sub in
  let before := snd (handle (burst 30) default_world) in
  let after := snd (handle (burst 31) default_world) in
  burst 31 = burst 30 ++ [direct "A" "message _"] /\
  length (window before "A") = 30%nat /\
  outbox before = repeat ("A", "stub reply") 30 /\
  (exists r w',
     process_message tick_clock literal_search literal_sub
       (direct "A" "message _") before = (Ok r, w') /\
     should_respond r = true /\ content r = rate_limit_notice) /\
  outbox after = repeat ("A", "stub reply") 31 /\
  (exists older t1 t2,
     history after "A" =
       Some (older ++ [user_turn rate_limit_notice t1; assistant_turn "stub reply" t2])) /\
  history after "A" <> history before "A".
Proof.
  cbv zeta.
  split; [reflexivity|].
  split; [vm_compute; reflexivity|].
  split; [vm_compute; reflexivity|].
  split; [eexists _, _; split; [vm_compute; reflexivity|]; split; reflexivity|].
  split; [vm_compute; reflexivity|].
  split.
  - eexists (firstn 8 (default [] (history (snd (handle_all tick_clock stub_backend
              literal_search literal_sub (burst 31) default_world)) "A"))), _, _.
    vm_compute. reflexivity.
  - vm_compute. discriminate.
Qed.


(** C10, the code at the failing input. ["A"] sends two plain messages to
    a bot with the default configuration; the completion API answers the
    first and is down for the second.  For the second message
    [generate_response] returns [None] and nothing is sent, yet the
    history of ["A"], which held the first exchange, now holds the second
    user turn as well: [conversation] is the stored list, and [append]
    changed it before the API was called.  A sender without a stored
    history is served by a list of its own and the store stays as it
    was. *)
Theorem failed_generation_changes_store :
  let api := backend_down_from 6 in
  let handle := handle_all tick_clock api literal_search literal_sub in
  let before := snd (handle [direct "A" "first question"] default_world) in
  let out := generate_response tick_clock api "second question" None "A" before in
  let out_new := generate_response tick_clock api "second question" None "B" before in
  history before "A" =
    Some [user_turn "first question" 3; assistant_turn "stub reply" 5] /\
  fst out = Ok None /\
  outbox (snd out) = outbox before /\
  history (snd out) "A" =
    Some [user_turn "first question" 3; assistant_turn "stub reply" 5;
          user_turn "second question" 6] /\
  history (snd out) "A" <> history before "A" /\
  fst out_new = Ok None /\
  conversation_history (processor (snd out_new)) = conversation_history (processor before).
Proof.
  cbv zeta.
  split; [vm_compute; reflexivity|].
  split; [vm_compute; reflexivity|].
  split; [vm_compute; reflexivity|].
  split; [vm_compute; reflexivity|].
  split; [vm_compute; discriminate|].
  split; vm_compute; reflexivity.
Qed.

(** C5, the code at the failing inputs.  First, the default cap of 10:
    ["A"] sends six plain messages, the completion API answers five and is
    down for the sixth; the stored history of ["A"] then has 11 turns,
    because the sixth user turn was appended to the stored list and no cap
    was applied.  Second, a cap of 0: [conversation[-0:]] is the whole
    list, so after three answered messages the stored history has 6 turns,
    and [_update_conversation_history] alone stores both turns of an
    exchange. *)
Theorem stored_history_exceeds_cap :
  let after_six :=
    snd (handle_all tick_clock (backend_down_from 30) literal_search literal_sub
           (burst 6) default_world) in
  let no_history := fresh_world default_handler (processor_with_cap 0) in
  let after_three :=
    snd (handle_all tick_clock stub_backend literal_search literal_sub
           (burst 3) no_history) in
  let exchange := [user_turn "hello" 0; assistant_turn "stub reply" 1] in
  max_history_length (processor after_six) = 10 /\
  length <$> history after_six "A" = Some 11%nat /\
  max_history_length (processor after_three) = 0 /\
  length <$> history after_three "A" = Some 6%nat /\
  history (snd (_update_conversation_history "A" (Fresh exchange) no_history)) "A"
    = Some exchange.
Proof.
  cbv zeta.
  split; [vm_compute; reflexivity|].
  split; [vm_compute; reflexivity|].
  split; [vm_compute; reflexivity|].
  split; vm_compute; reflexivity.
Qed.

(** C4 as stated fails under a negative cap: the bot with the cap -1 has
    just started, the first check rejects and stores the empty window,
    and the empty window is longer than the cap. *)
Lemma window_exceeds_negative_cap :
  let w := fresh_world (handler_with_cap (-1)) default_processor in
  let after := snd (_check_rate_limit tick_clock "A" w) in
  reachable tick_clock stub_backend literal_search literal_sub w /\
  fst (_check_rate_limit tick_clock "A" w) = Ok false /\
  message_timestamps (handler after) !! "A" = Some [] /\
  max_messages_per_hour (handler after) = -1 /\
  ~ (Z.of_nat (length (window after "A")) <= max_messages_per_hour (handler after)).
Proof.
  cbv zeta.
  split; [apply reach_start; reflexivity|].
  split; [vm_compute; reflexivity|].
  split; [vm_compute; reflexivity|].
  split; [vm_compute; reflexivity|].
  replace (window (snd (_check_rate_limit tick_clock "A"
                          (fresh_world (handler_with_cap (-1)) default_processor))) "A")
    with (@nil Z) by (vm_compute; reflexivity).
  replace (max_messages_per_hour
             (handler (snd (_check_rate_limit tick_clock "A"
                              (fresh_world (handler_with_cap (-1)) default_processor)))))
    with (-1) by (vm_compute; reflexivity).
  cbn [length]. lia.
Qed.

(** C9 as stated fails under a cap of one: the message is admitted, the
    provider replies, and the history of the sender is the assistant turn
    alone. *)
Lemma exchange_cut_by_cap_of_one :
  let w := fresh_world default_handler (processor_with_cap 1) in
  let m := direct "A" "  what is   the weather " in
  exists r w1 w2 stamped,
    process_message tick_clock literal_search literal_sub m w = (Ok r, w1) /\
    context r = Some (AdmitContext false "A" "what is   the weather"
                        "what is the weather" stamped) /\
    generate_response tick_clock stub_backend (content r) (context r) "A" w1
      = (Ok (Some "stub reply"), w2) /\
    history w2 "A" = Some [assistant_turn "stub reply" 5] /\
    ~ ends_with_exchange [assistant_turn "stub reply" 5] "what is the weather" "stub reply".
Proof.
  cbv zeta. eexists _, _, _, _.
  split; [vm_compute; reflexivity|].
  split; [vm_compute; reflexivity|].
  split; [vm_compute; reflexivity|].
  split; [vm_compute; reflexivity|].
  intros (older & t1 & t2 & Heq).
  destruct older as [|x [|y older]]; discriminate.
Qed.


(* ===================================================================== *)
(** * The theorems at concrete inputs                                     *)
(* ===================================================================== *)

(** The limiter at the boundary: of the stamps 5, 6 and 7 the first is
    exactly one hour old at [hour + 5] and is dropped, the message is
    accepted and its stamp recorded. *)
Lemma check_rate_limit_at_boundary :
  rate_limit_enabled (handler boundary_world) = true /\
  _check_rate_limit boundary_clock "A" boundary_world
    = (Ok true, record_window "A" [6; 7; hour + 5] boundary_world).
Proof.
  split; [reflexivity|].
  destruct (check_rate_limit_prune_compare_record boundary_clock "A" boundary_world)
    as (_ & _ & _ & Hroom & _).
  destruct (Hroom eq_refl ltac:(vm_compute; reflexivity)) as [Hrun _].
  rewrite Hrun. vm_compute. reflexivity.
Defined.

(** The invariant at the cap: under a cap of one the second check of a
    bot that has just started finds the window full and rejects. *)
Lemma window_after_two_checks :
  let w := snd (_check_rate_limit tick_clock "A"
                  (fresh_world (handler_with_cap 1) default_processor)) in
  let after := snd (_check_rate_limit tick_clock "A" w) in
  reachable tick_clock stub_backend literal_search literal_sub w /\
  fst (_check_rate_limit tick_clock "A" w) = Ok false /\
  0 <= max_messages_per_hour (handler w) /\
  Forall (fun t => tick_clock (events w) - hour < t) (window after "A") /\
  window after "A" = filter (fun t => tick_clock (events w) - hour < t) (window w "A") /\
  Z.of_nat (length (window after "A")) <= max_messages_per_hour (handler after) /\
  window after "A" = [0] /\
  max_messages_per_hour (handler after) = 1.
Proof.
  intros w after.
  assert (Hreach : reachable tick_clock stub_backend literal_search literal_sub w).
  { apply reach_check, reach_start. reflexivity. }
  assert (Hrej : fst (_check_rate_limit tick_clock "A" w) = Ok false)
    by (vm_compute; reflexivity).
  assert (Hpos : 0 <= max_messages_per_hour (handler w)).
  { vm_compute. discriminate. }
  split; [exact Hreach|]. split; [exact Hrej|]. split; [exact Hpos|].
  destruct (window_fresh_and_bounded_after_check tick_clock stub_backend literal_search
              literal_sub w "A" Hreach) as (Hfresh & Hkept & Hlen).
  split; [exact Hfresh|]. split; [exact (proj1 (Hkept Hrej))|].
  split; [exact (Hlen Hpos)|].
  split; vm_compute; reflexivity.
Defined.

(** The chain on a group message that mentions the bot: it is admitted
    and the mention is taken out of the content. *)
Lemma admission_of_a_mention :
  let m := in_group "A" "@bot what's the weather" in
  let w := fresh_world group_handler default_processor in
  body_strip (msg_body m) = Ok "@bot what's the weather" /\
  _is_bot_mentioned literal_search (handler w) "@bot what's the weather" = Ok true /\
  _clean_message_content literal_sub (handler w) "@bot what's the weather" true
    = Ok "what's the weather" /\
  exists r w',
    process_message tick_clock literal_search literal_sub m w = (Ok r, w') /\
    should_respond r = true /\
    content r = "what's the weather".
Proof.
  intros m w.
  assert (Hbody : body_strip (msg_body m) = Ok "@bot what's the weather")
    by (vm_compute; reflexivity).
  assert (Hmention :
    _is_bot_mentioned literal_search (handler w) "@bot what's the weather" = Ok true)
    by (vm_compute; reflexivity).
  assert (Hclean :
    _clean_message_content literal_sub (handler w) "@bot what's the weather" true
      = Ok "what's the weather")
    by (vm_compute; reflexivity).
  split; [exact Hbody|]. split; [exact Hmention|]. split; [exact Hclean|].
  destruct (admission_chain_order tick_clock literal_search literal_sub m w
              "@bot what's the weather" true "what's the weather"
              Hbody (fun _ => Hmention) Hclean)
    as (r & w' & Hrun & Hresp & _ & Hstep).
  exists r, w'. split; [exact Hrun|].
  split; [rewrite Hresp; vm_compute; reflexivity|].
  vm_compute in Hstep. destruct Hstep as [stamped ->]. reflexivity.
Defined.

(** A media message without text: the fault of [.strip()] on [None] is
    caught and reported in the result. *)
Lemma media_message_fault_is_caught :
  process_message_body tick_clock literal_search literal_sub (media "A") default_world
    = (Raise (AttributeError "'NoneType' object has no attribute 'strip'"), default_world) /\
  exists w',
    process_message tick_clock literal_search literal_sub (media "A") default_world
      = (Ok (error_response
               (AttributeError "'NoneType' object has no attribute 'strip'")), w').
Proof.
  assert (Hraise :
    process_message_body tick_clock literal_search literal_sub (media "A") default_world
      = (Raise (AttributeError "'NoneType' object has no attribute 'strip'"), default_world))
    by reflexivity.
  split; [exact Hraise|].
  destruct (process_message_catches_faults tick_clock stub_backend literal_search
              literal_sub (media "A") default_world) as (_ & Hcatch & _).
  destruct (Hcatch _ _ Hraise) as (Hrun & _).
  eexists. exact Hrun.
Defined.

(** A sender on both lists is rejected; with no list at all the same
    message is responded to. *)
Lemma contact_lists_at_work :
  let m := direct "A" "hello" in
  let listed := fresh_world both_lists_handler default_processor in
  ("A" ∈ blocked_contacts (handler listed)) /\
  ("A" ∈ allowed_contacts (handler listed)) /\
  (exists r w',
     process_message tick_clock literal_search literal_sub m listed = (Ok r, w') /\
     should_respond r = false) /\
  allowed_contacts (handler default_world) = ∅ /\
  ("A" ∉ blocked_contacts (handler default_world)) /\
  (exists r w',
     process_message tick_clock literal_search literal_sub m default_world = (Ok r, w') /\
     should_respond r = true).
Proof.
  intros m listed.
  assert (Hblocked : "A" ∈ blocked_contacts (handler listed))
    by (vm_compute; reflexivity).
  assert (Hfree : "A" ∉ blocked_contacts (handler default_world))
    by (vm_compute; discriminate).
  split; [exact Hblocked|].
  split; [vm_compute; reflexivity|].
  split.
  { destruct (blocklist_first_empty_allowlist_open tick_clock literal_search literal_sub
                m listed) as [Hfirst _].
    destruct (Hfirst Hblocked) as (r & w' & Hrun & Hresp & _).
    exists r, w'. split; assumption. }
  split; [reflexivity|]. split; [exact Hfree|].
  destruct (blocklist_first_empty_allowlist_open tick_clock literal_search literal_sub
              m default_world) as [_ Hopen].
  destruct (Hopen eq_refl Hfree) as (_ & _ & Hdirect).
  exact (Hdirect "hello" eq_refl eq_refl eq_refl).
Defined.

(** The round trip under the default cap of 10. *)
Lemma exchange_under_default_cap :
  let m := direct "A" "  what is   the weather " in
  let admitted := process_message tick_clock literal_search literal_sub m default_world in
  let after :=
    snd (generate_response tick_clock stub_backend "what is the weather"
           (Some (AdmitContext false "A" "what is   the weather" "what is the weather" 2))
           "A" (snd admitted)) in
  2 <= max_history_length (processor default_world) /\
  exists l, history after "A" = Some l /\
            ends_with_exchange l "what is the weather" "stub reply".
Proof.
  intros m admitted after.
  assert (Hcap : 2 <= max_history_length (processor default_world))
    by (vm_compute; discriminate).
  split; [exact Hcap|].
  eapply (admitted_exchange_ends_history tick_clock stub_backend literal_search literal_sub
            m default_world).
  - exact Hcap.
  - vm_compute. reflexivity.
  - vm_compute. reflexivity.
  - vm_compute. reflexivity.
Defined.

(** The cleaning of a group message that shouts at the bot. *)
Lemma cleaning_of_a_shouted_mention :
  _clean_message_content literal_sub group_handler "  @BOT   what's the   weather " true
    = Ok "what's the weather" /\
  strip "what's the weather" = "what's the weather" /\
  collapse_whitespace "what's the weather" = "what's the weather" /\
  _clean_message_content literal_sub group_handler "what's the weather" false
    = Ok "what's the weather".
Proof.
  assert (Hclean :
    _clean_message_content literal_sub group_handler "  @BOT   what's the   weather " true
      = Ok "what's the weather") by (vm_compute; reflexivity).
  split; [exact Hclean|].
  exact (cleaned_content_is_normalised literal_sub group_handler _ true _ Hclean).
Defined.

(** The command [pause] at work. *)
Lemma pause_is_canned :
  fst (_process_command " Pause " "A" default_world)
    = Ok (Some (_handle_command "stop" "A")) /\
  cr_action (_handle_command "stop" "A") = Some "pause".
Proof.
  assert (Hrun : fst (_process_command " Pause " "A" default_world)
                 = Ok (Some (_handle_command "stop" "A"))) by reflexivity.
  split; [exact Hrun|].
  destruct (command_result_is_canned " Pause " "A" default_world _ Hrun)
    as (command & _ & Heq & _ & _ & Hpause & _).
  reflexivity.
Defined.

(** The stamps 5, 6 and 7 are more than an hour old at [2 * hour + 10]. *)
Lemma window_has_rolled :
  rate_limit_enabled (handler boundary_world) = true /\
  1 <= max_messages_per_hour (handler boundary_world) /\
  Forall (fun t => t <= late_clock (events boundary_world) - hour)
         (window boundary_world "A") /\
  _check_rate_limit late_clock "A" boundary_world
    = (Ok true, record_window "A" [2 * hour + 10] boundary_world).
Proof.
  assert (Hold : Forall (fun t => t <= late_clock (events boundary_world) - hour)
                        (window boundary_world "A")).
  { replace (window boundary_world "A") with [5; 6; 7] by (vm_compute; reflexivity).
    repeat constructor; unfold late_clock, hour; lia. }
  split; [reflexivity|]. split; [vm_compute; discriminate|]. split; [exact Hold|].
  rewrite (rate_limit_recovers_after_an_hour late_clock "A" boundary_world eq_refl
             ltac:(vm_compute; discriminate) Hold).
  vm_compute. reflexivity.
Defined.

(** Under a cap of zero the first message of all is rejected. *)
Lemma zero_cap_rejects_the_first_message :
  let w := fresh_world (handler_with_cap 0) default_processor in
  rate_limit_enabled (handler w) = true /\
  max_messages_per_hour (handler w) <= 0 /\
  _check_rate_limit tick_clock "A" w = (Ok false, record_window "A" [] w).
Proof.
  intros w. split; [reflexivity|]. split; [vm_compute; discriminate|].
  rewrite (rate_limit_closed_under_zero_cap tick_clock "A" w eq_refl
             ltac:(vm_compute; discriminate)).
  vm_compute. reflexivity.
Defined.

(** The statistics after a first check for each of two senders. *)
Lemma stats_after_two_senders :
  let w := snd (_check_rate_limit tick_clock "B"
                  (snd (_check_rate_limit tick_clock "A" default_world))) in
  reachable tick_clock stub_backend literal_search literal_sub w /\
  0 <= max_messages_per_hour (handler w) /\
  stats_rate_limited_contacts (get_stats (handler w)) = 2%nat /\
  Z.of_nat (stats_total_message_history (get_stats (handler w)))
  <= Z.of_nat (stats_rate_limited_contacts (get_stats (handler w)))
     * max_messages_per_hour (handler w).
Proof.
  intros w.
  assert (Hreach : reachable tick_clock stub_backend literal_search literal_sub w).
  { apply reach_check, reach_check, reach_start. reflexivity. }
  assert (Hpos : 0 <= max_messages_per_hour (handler w)) by (vm_compute; discriminate).
  split; [exact Hreach|]. split; [exact Hpos|]. split; [vm_compute; reflexivity|].
  exact (stats_total_within_cap tick_clock stub_backend literal_search literal_sub
           w Hreach Hpos).
Defined.

(** Blocking ["A"] in the default world. *)
Lemma blocked_at_once :
  msg_from (direct "A" "hello") = "A" /\
  exists r w',
    process_message tick_clock literal_search literal_sub (direct "A" "hello")
      (snd (add_blocked_contact "A" default_world)) = (Ok r, w') /\
    should_respond r = false.
Proof.
  split; [reflexivity|].
  destruct (blocking_takes_effect tick_clock literal_search literal_sub "A"
              (direct "A" "hello") default_world eq_refl) as (r & w' & Hrun & Hresp & _).
  exists r, w'. split; assumption.
Defined.

(** Blocking and unblocking ["A"] in the default world. *)
Lemma block_then_unblock :
  ("A" ∉ blocked_contacts (handler default_world)) /\
  handler (snd (remove_blocked_contact "A" (snd (add_blocked_contact "A" default_world))))
    = handler default_world.
Proof.
  assert (Hfree : "A" ∉ blocked_contacts (handler default_world))
    by (vm_compute; discriminate).
  split; [exact Hfree|].
  destruct (unblocking_undoes_blocking "A" default_world) as [Hundo _].
  exact (proj1 (Hundo Hfree)).
Defined.

(** A help command in the default world is counted by the limiter. *)
Lemma help_command_is_counted :
  let m := direct "A" "help" in
  rate_limit_enabled (handler default_world) = true /\
  exists r w',
    process_message tick_clock literal_search literal_sub m default_world = (Ok r, w') /\
    should_respond r = true /\
    window w' "A" = [1].
Proof.
  intros m. split; [reflexivity|].
  destruct (process_message tick_clock literal_search literal_sub m default_world)
    as [res w'] eqn:Hrun.
  assert (Hres : exists r, res = Ok r /\ should_respond r = true).
  { apply (f_equal fst) in Hrun. cbn [fst] in Hrun. rewrite <- Hrun.
    eexists. split; [vm_compute; reflexivity|reflexivity]. }
  destruct Hres as (r & -> & Hresp).
  exists r, w'. split; [reflexivity|]. split; [exact Hresp|].
  destruct (responded_message_ran_the_limiter tick_clock literal_search literal_sub
              m default_world w' r Hrun Hresp eq_refl) as [(Hfull & _) | (_ & Hwin)].
  - vm_compute in Hfull. exfalso. apply Hfull. reflexivity.
  - exact Hwin.
Defined.

(** A reply stored under a cap of one. *)
Lemma reply_under_cap_of_one :
  let w := fresh_world default_handler (processor_with_cap 1) in
  let out := generate_response tick_clock stub_backend "hi" None "A" w in
  1 <= max_history_length (processor w) /\
  exists l answered,
    history (snd out) "A" = Some l /\
    Z.of_nat (length l) <= 1 /\
    last l = Some (assistant_turn "stub reply" answered).
Proof.
  intros w out.
  assert (Hcap : 1 <= max_history_length (processor w)) by (vm_compute; discriminate).
  split; [exact Hcap|].
  destruct (successful_reply_is_stored_last tick_clock stub_backend "hi" None "A" w
              "stub reply" Hcap ltac:(vm_compute; reflexivity))
    as (l & dropped & answered & Hhist & Hlen & _ & Hlast).
  exists l, answered. split; [exact Hhist|]. split; [exact Hlen | exact Hlast].
Defined.

(** Clearing the conversation of ["A"] after a first exchange, and asking
    again. *)
Lemma asking_after_a_clear :
  let w := snd (generate_response tick_clock stub_backend "first" None "A" default_world) in
  let cleared := snd (clear_conversation_history (Some "A") w) in
  let out := generate_response tick_clock stub_backend "again" None "A" cleared in
  2 <= max_history_length (processor w) /\
  exists answered,
    history (snd out) "A" =
      Some [user_turn "again" (tick_clock (events w)); assistant_turn "stub reply" answered].
Proof.
  intros w cleared out.
  assert (Hcap : 2 <= max_history_length (processor w)) by (vm_compute; discriminate).
  split; [exact Hcap|].
  destruct (clear_then_generate_starts_afresh tick_clock stub_backend "again" None "A" w Hcap)
    as (_ & Hreply & _).
  exact (Hreply "stub reply" ltac:(vm_compute; reflexivity)).
Defined.

(* ===================================================================== *)
(** * The processor and its backend                                       *)
(* ===================================================================== *)

Ltac run_backend :=
  unfold generate_response, generate_response_body, _get_conversation_history,
    _generate_with_provider, _generate_with_anthropic, _generate_with_local_model,
    append_ref, try_except, bind, lift, log, modify, get, ret, datetime_now;
  cbn [handler processor client send_error_notifications outbox logs events
       with_handler with_processor with_outbox with_logs with_events
       provider system_prompt conversation_history max_history_length with_history
       fst snd].

(** X15. Under a provider other than ['openai'] the completion API is
    never called: [generate_response] gives the same result and the same
    world whatever the API would answer.  It returns the notice of
    the Anthropic placeholder, the greeting of the local placeholder, or
    [None] for a provider it does not know. *)
Theorem other_providers_never_call_the_api (clock : nat -> Z)
    (api api' : nat -> list (string * string) -> result string)
    (text : string) (ctx : option context_map) (sender : string) (w : world)
    (p : string) :
  provider (processor w) = Some p ->
  p <> "openai" ->
  generate_response clock api text ctx sender w
    = generate_response clock api' text ctx sender w /\
  fst (generate_response clock api text ctx sender w) =
    Ok (if String.eqb p "anthropic"
        then Some "Sorry, I'm not available right now. Please try again later."
        else if String.eqb p "local"
        then Some "Hello! I'm running on a local model. How can I help you?"
        else None).
Proof.
  intros Hp Hne. run_backend.
  destruct (conversation_history (processor w) !! sender) as [l|] eqn:Hold;
    run_backend; rewrite Hp; cbn [default from_option id].
  all: destruct (String.eqb_spec p "openai") as [Heq|_]; [contradiction|].
  all: split; [reflexivity|].
  all: destruct (String.eqb p "anthropic"); [|destruct (String.eqb p "local")].
  all: run_backend; cbn [truthy negb String.eqb Ascii.eqb Bool.eqb].
  all: try reflexivity.
  all: unfold _update_conversation_history, read_ref; run_backend.
  all: try reflexivity.
  all: destruct (_ <? _); run_backend; reflexivity.
Qed.

Lemma prompt_shape_of_conversation (sys text : string) (cap : Z) (l : list turn) (t : Z) :
  1 <= cap ->
  prompt_shape sys text cap
    (("system", sys) ::
     map (fun msg => (role msg, turn_content msg))
         (slice_from (- cap) (l ++ [user_turn text t]))).
Proof.
  intros Hcap. eexists. split; [reflexivity|].
  unfold slice_from. destruct (Z.ltb_spec (- cap) 0) as [_|Habs]; [|lia].
  rewrite length_map, length_drop, length_app. cbn [length].
  split; [lia|].
  rewrite drop_app_le by lia. rewrite map_app. apply last_snoc.
Qed.

(** X16. What the completion API is shown.  Under a cap of at least one,
    every prompt that [generate_response] sends has the shape
    [prompt_shape]: the system prompt first, then at most
    [max_history_length] turns, the last of which is the question just
    asked.  So two APIs that agree on the prompts of that shape give the
    same result and the same world. *)
Theorem api_sees_a_bounded_prompt (clock : nat -> Z)
    (api api' : nat -> list (string * string) -> result string)
    (text : string) (ctx : option context_map) (sender : string) (w : world) :
  1 <= max_history_length (processor w) ->
  (forall n messages,
     prompt_shape (system_prompt (processor w)) text
                  (max_history_length (processor w)) messages ->
     api n messages = api' n messages) ->
  generate_response clock api text ctx sender w
    = generate_response clock api' text ctx sender w.
Proof.
  intros Hcap Hagree.
  assert (Hshape : forall l t n,
    api n (("system", system_prompt (processor w)) ::
           map (fun msg => (role msg, turn_content msg))
               (slice_from (- max_history_length (processor w))
                           (l ++ [user_turn text t])))
    = api' n (("system", system_prompt (processor w)) ::
              map (fun msg => (role msg, turn_content msg))
                  (slice_from (- max_history_length (processor w))
                              (l ++ [user_turn text t])))).
  { intros l t n. apply Hagree, prompt_shape_of_conversation, Hcap. }
  unfold user_turn in Hshape. run_backend.
  destruct (conversation_history (processor w) !! sender) as [l|] eqn:Hold;
    run_backend.
  all: (destruct (String.eqb _ "openai");
    [|destruct (String.eqb _ "anthropic"); [|destruct (String.eqb _ "local")];
      reflexivity]);
    unfold _generate_with_openai, read_ref; run_backend;
    rewrite ?lookup_alter_eq, ?Hold;
    cbn [fmap option_fmap option_map default from_option id];
    rewrite Hshape; reflexivity.
Qed.

(** The Anthropic placeholder answers whether the API is up or down. *)
Lemma anthropic_never_calls_the_api :
  let w := fresh_world default_handler (processor_of_provider "anthropic") in
  provider (processor w) = Some "anthropic" /\
  "anthropic" <> "openai" /\
  generate_response tick_clock stub_backend "hi" None "A" w
    = generate_response tick_clock down_backend "hi" None "A" w.
Proof.
  intros w. split; [reflexivity|]. split; [discriminate|].
  exact (proj1 (other_providers_never_call_the_api tick_clock stub_backend down_backend
                  "hi" None "A" w "anthropic" eq_refl ltac:(discriminate))).
Defined.

(** An API that refuses every prompt longer than the default cap is as
    good as one that answers everything. *)
Lemma strict_api_is_enough :
  1 <= max_history_length (processor default_world) /\
  generate_response tick_clock stub_backend "hi" None "A" default_world
    = generate_response tick_clock (strict_backend 10) "hi" None "A" default_world.
Proof.
  assert (Hcap : 1 <= max_history_length (processor default_world))
    by (vm_compute; discriminate).
  split; [exact Hcap|].
  apply (api_sees_a_bounded_prompt tick_clock stub_backend (strict_backend 10)
           "hi" None "A" default_world Hcap).
  intros n messages (turns & -> & Hlen & _).
  unfold stub_backend, strict_backend. cbn [fst String.eqb Ascii.eqb Bool.eqb andb].
  change (max_history_length (processor default_world)) with 10 in Hlen.
  destruct (Nat.leb_spec (length turns) 10) as [_|Hlong]; [reflexivity|lia].
Defined.

(** A media message to a bot that notifies of errors. *)
Lemma media_message_gets_the_notification :
  msg_body (media "A") = PyNone /\
  outbox (snd (_handle_message tick_clock stub_backend literal_search literal_sub
                 (media "A") notifying_world))
    = [("A", error_notification)].
Proof.
  split; [reflexivity|].
  destruct (unreadable_body_skips_the_pipeline tick_clock stub_backend literal_search
              literal_sub (media "A") notifying_world eq_refl) as (_ & _ & Hout).
  exact Hout.
Defined.

(** A greeting of ["A"] after ["A"] was blocked. *)
Lemma blocked_contact_is_ignored :
  let w := snd (add_blocked_contact "A" default_world) in
  let m := direct "A" "hello" in
  msg_from m ∈ blocked_contacts (handler w) /\
  msg_body m <> PyNone /\
  outbox (snd (_handle_message tick_clock stub_backend literal_search literal_sub m w))
    = outbox w.
Proof.
  intros w m.
  assert (Hblocked : msg_from m ∈ blocked_contacts (handler w)).
  { cbn. apply elem_of_union_l, elem_of_singleton. reflexivity. }
  assert (Hbody : msg_body m <> PyNone) by discriminate.
  split; [exact Hblocked|]. split; [exact Hbody|].
  destruct (blocked_sender_gets_no_reply tick_clock stub_backend literal_search
              literal_sub m w Hblocked Hbody) as (Hout & _).
  exact Hout.
Defined.

(** A greeting while the API is down, with notifications on. *)
Lemma greeting_while_the_api_is_down :
  (forall n messages, exists e, down_backend n messages = Raise e) /\
  String.eqb (default "openai" (provider (processor notifying_world))) "openai" = true /\
  msg_body (direct "A" "hello") <> PyNone /\
  outbox (snd (_handle_message tick_clock down_backend literal_search literal_sub
                 (direct "A" "hello") notifying_world)) = [].
Proof.
  assert (Hfail : forall n messages, exists e, down_backend n messages = Raise e).
  { intros n messages. eexists. reflexivity. }
  assert (Hbody : msg_body (direct "A" "hello") <> PyNone) by discriminate.
  split; [exact Hfail|]. split; [reflexivity|]. split; [exact Hbody|].
  destruct (api_failure_is_silent tick_clock down_backend literal_search literal_sub
              (direct "A" "hello") notifying_world Hfail eq_refl Hbody)
    as (w' & Hrun & Hout).
  rewrite Hrun. exact Hout.
Defined.
